(** * The live audio, transcription and translation orchestrator

  Shallow embedding of [src/index.tsx].  The file holds two classes that
  implement the same orchestrator: [VoiceNotesApp] (lines 21-1013) and
  [GeminiLiveApp] (lines 1020-1375, cut before its last members).
  Definitions keep the names of the TypeScript members they embed.  The
  members of each class are in a module of its name; what both classes
  share word for word (the conversion of samples, the playback scheduler,
  the system prompts) is defined once.

  A callback of the browser is a function from the state of the
  application object to its next state; what the application does to its
  collaborators (the recogniser, the tracks, the cloud session) is appended
  to a record kept in the state.  An [async] method is cut at its [await]:
  the part before it issues the request, the part after it is a callback of
  its own. *)

From Stdlib Require Import ZArith QArith Qabs Qround Qminmax Qpower Lqa Lia.
From Stdlib Require Import Bool Ascii String List.
Import ListNotations.

Local Open Scope Z_scope.

(** ** JavaScript numbers

  Audio samples are IEEE numbers.  The finite ones are rationals; the
  arithmetic the pipeline performs on them is exact (a binary32 sample
  times [0x7FFF] has at most 39 significant bits, and dividing a 16-bit
  integer by [32768.0] only changes the exponent), so finite values are
  carried as [Q] and the three special values are kept apart. *)
Module Num.

Inductive number : Type :=
| NaN
| Inf (negative : bool)
| Fin (q : Q).

(** [Math.min(a, b)]: NaN is contagious. *)
Definition math_min (a b : number) : number :=
  match a, b with
  | NaN, _ | _, NaN => NaN
  | Inf true, _ | _, Inf true => Inf true
  | Inf false, y => y
  | x, Inf false => x
  | Fin x, Fin y => if Qle_bool x y then Fin x else Fin y
  end.

(** [Math.max(a, b)]. *)
Definition math_max (a b : number) : number :=
  match a, b with
  | NaN, _ | _, NaN => NaN
  | Inf false, _ | _, Inf false => Inf false
  | Inf true, y => y
  | x, Inf true => x
  | Fin x, Fin y => if Qle_bool x y then Fin y else Fin x
  end.

Definition Qsign_neg (q : Q) : bool := (Qnum q <? 0)%Z.
Definition Qis_zero (q : Q) : bool := (Qnum q =? 0)%Z.

(** [a * b]. *)
Definition mul (a b : number) : number :=
  match a, b with
  | NaN, _ | _, NaN => NaN
  | Inf s, Inf t => Inf (xorb s t)
  | Inf s, Fin q | Fin q, Inf s =>
      if Qis_zero q then NaN else Inf (xorb s (Qsign_neg q))
  | Fin x, Fin y => Fin (x * y)
  end.

(** [a / b] for a finite, non-zero divisor (the only use in the source is
    [/ 32768.0]). *)
Definition div_const (a : number) (d : Q) : number :=
  match a with
  | NaN => NaN
  | Inf s => Inf (xorb s (Qsign_neg d))
  | Fin x => Fin (x / d)
  end.

(** Truncation toward zero of a rational. *)
Definition truncate (q : Q) : Z := Z.quot (Qnum q) (Zpos (Qden q)).

(** Reduction of an integer into the signed 16-bit range. *)
Definition wrap16 (z : Z) : Z := (z + 32768) mod 65536 - 32768.

(** ECMAScript [ToInt16], the conversion applied by a store into an
    [Int16Array]: NaN and the infinities give 0, a finite number is
    truncated and reduced modulo 2^16. *)
Definition ToInt16 (x : number) : Z :=
  match x with
  | NaN | Inf _ => 0
  | Fin q => wrap16 (truncate q)
  end.

(** [Math.round]: the nearest integer, ties toward +infinity. *)
Definition math_round (q : Q) : Z := Qfloor (q + (1 # 2)).

End Num.

Import Num.

(** ** Double precision

  The times of the playback scheduler are IEEE 754 binary64 numbers and
  the scheduler adds them.  ECMAScript defines the sum of two finite
  numbers as the exact sum rounded to the nearest binary64 value, ties to
  the even significand; [round] is that rounding on the rationals.  A
  binary64 value has a significand of 53 bits and a unit in the last place
  between 2^-1074 and 2^971; what rounds to 2^1024 or more is infinite.
  The sign of a zero is not kept: it is never observed by a comparison or
  by [source.start]. *)
Module Double.

Local Open Scope Q_scope.

Definition pow2 (e : Z) : Q := 2 ^ e.

(** The integer part of the binary logarithm of a positive rational. *)
Definition ilog2 (a : Q) : Z :=
  let l := (Z.log2 (Qnum a) - Z.log2 (Zpos (Qden a)))%Z in
  if Qle_bool (pow2 l) a then l else (l - 1)%Z.

(** The nearest integer, ties to the even one. *)
Definition rne (t : Q) : Z :=
  let f := Qfloor t in
  match Qcompare (t - inject_Z f) (1 # 2) with
  | Lt => f
  | Gt => (f + 1)%Z
  | Eq => if Z.even f then f else (f + 1)%Z
  end.

(** The binary64 value of a real number (roundTiesToEven). *)
Definition round (x : Q) : number :=
  if Qeq_bool x 0 then Fin 0
  else
    let a := Qabs x in
    let ex := Z.max (ilog2 a - 52) (-1074) in
    let r := inject_Z (rne (a / pow2 ex)) * pow2 ex in
    if Qle_bool (pow2 1024) r then Inf (Qsign_neg x)
    else Fin (Qred (if Qsign_neg x then - r else r)).

(** [a + b]. *)
Definition add (a b : number) : number :=
  match a, b with
  | NaN, _ | _, NaN => NaN
  | Inf s, Inf t => if Bool.eqb s t then Inf s else NaN
  | Inf s, Fin _ | Fin _, Inf s => Inf s
  | Fin x, Fin y => round (x + y)
  end.

(** [a < b]: false as soon as one side is NaN. *)
Definition ltb (a b : number) : bool :=
  match a, b with
  | NaN, _ | _, NaN => false
  | Inf s, Inf t => s && negb t
  | Inf s, Fin _ => s
  | Fin _, Inf t => negb t
  | Fin x, Fin y => negb (Qle_bool y x)
  end.

Definition is_nan (a : number) : bool :=
  match a with NaN => true | _ => false end.

End Double.

(** ** PCM conversion: capture encoder and playback decoder *)
Module Pcm.

(** Body of the loop of [processor.onaudioprocess]:
    [pcmData[i] = Math.max(-1, Math.min(1, inputData[i])) * 0x7FFF]. *)
Definition clamp (x : number) : number :=
  math_max (Fin (-1)) (math_min (Fin 1) x).

Definition pcm_of_sample (x : number) : Z :=
  ToInt16 (mul (clamp x) (Fin 32767)).

(** The whole [pcmData] array of one frame. *)
Definition pcmData (inputData : list number) : list Z :=
  map pcm_of_sample inputData.

(** [new Uint8Array(pcmData.buffer)]: the two bytes of each sample, low
    byte first (typed arrays use the platform order, little-endian on
    every platform the application runs on). *)
Definition bytes_of_int16 (v : Z) : list Z :=
  let u := v mod 65536 in [u mod 256; u / 256].

Definition Uint8_view (samples : list Z) : list Z :=
  flat_map bytes_of_int16 samples.

(** [new Int16Array(data.buffer)]: a RangeError when the byte length is
    odd. *)
Fixpoint Int16_view (data : list Z) : option (list Z) :=
  match data with
  | [] => Some []
  | [_] => None
  | lo :: hi :: rest =>
      match Int16_view rest with
      | Some l => Some (wrap16 (lo + 256 * hi) :: l)
      | None => None
      end
  end.

(** Body of the loop of [decodeAudioData]:
    [float32Data[i] = dataInt16[i] / 32768.0]. *)
Definition decode_sample (v : Z) : number :=
  div_const (Fin (inject_Z v)) 32768.

(** What the specification writes for the capture quantiser:
    [round(clamp(x,-1,1) * 32767)]. *)
Definition spec_quantise (x : number) : Z :=
  match mul (clamp x) (Fin 32767) with
  | Fin q => math_round q
  | _ => 0
  end.

End Pcm.

(** ** Playback scheduler

  Times are seconds of the clock of the output context, in double
  precision: the scheduler compares the cursor with the clock and adds the
  duration of a buffer to the cursor. *)
Module Playback.

(** The fields of the application object that [playAudioChunk] reads and
    writes.  The two nodes are only tested against [null]. *)
Record scheduler : Type := mkScheduler {
  outputAudioContext : bool;
  outputGainNode : bool;
  nextStartTime : number
}.

(** The observable call [source.start(when)] on a source node that plays a
    buffer of the given duration. *)
Record scheduled : Type := mkScheduled {
  startAt : number;
  bufferDuration : number
}.

(** [decodeAudioData]: the Int16 view of the bytes, each sample divided by
    32768, copied into a one-channel buffer at 24 kHz.  The view fails on
    an odd byte length and [createBuffer] refuses a length of zero. *)
Definition decodeAudioData (data : list Z) : option (list number) :=
  match Pcm.Int16_view data with
  | None => None
  | Some dataInt16 =>
      let float32Data := map Pcm.decode_sample dataInt16 in
      match float32Data with
      | [] => None
      | _ => Some float32Data
      end
  end.

(** The duration of a buffer: length over sample rate. *)
Definition duration (buffer : list number) : Q :=
  inject_Z (Z.of_nat (length buffer)) / 24000.

(** [audioBuffer.duration], the number the buffer reports: that quotient
    in double precision. *)
Definition duration64 (buffer : list number) : number :=
  Double.round (duration buffer).

(** Lines 919-923: the cursor, or the clock when the cursor is behind
    it. *)
Definition later (cursor currentTime : number) : number :=
  if Double.ltb cursor currentTime then currentTime else cursor.

(** [playAudioChunk].  [bytes] is the outcome of the base64 decoding
    ([None] when [atob] throws), [currentTime] the clock of the output
    context when the chunk is scheduled.  Every failure inside the [try]
    is logged and leaves the cursor as it was. *)
Definition playAudioChunk (st : scheduler) (currentTime : number)
    (bytes : option (list Z)) : scheduler * option scheduled :=
  if negb (outputAudioContext st) || negb (outputGainNode st) then (st, None)
  else
    match bytes with
    | None => (st, None)
    | Some data =>
        match decodeAudioData data with
        | None => (st, None)
        | Some audioBuffer =>
            let next := later (nextStartTime st) currentTime in
            ({| outputAudioContext := outputAudioContext st;
                outputGainNode := outputGainNode st;
                nextStartTime := Double.add next (duration64 audioBuffer) |},
             Some {| startAt := next;
                     bufferDuration := duration64 audioBuffer |})
        end
    end.

(** One line of the schedule of a session: the cursor and the clock the
    chunk met, and the call it produced. *)
Record entry : Type := mkEntry {
  cursor_before : number;
  clock : number;
  call : scheduled
}.

(** The chunks of a session, in arrival order, each with the clock value
    at which it reaches the scheduler. *)
Fixpoint play_all (st : scheduler) (chunks : list (number * option (list Z)))
    : list entry * scheduler :=
  match chunks with
  | [] => ([], st)
  | (now, bytes) :: rest =>
      let '(st', out) := playAudioChunk st now bytes in
      let '(log, final) := play_all st' rest in
      (match out with
       | Some c => {| cursor_before := nextStartTime st;
                      clock := now; call := c |} :: log
       | None => log
       end, final)
  end.


(** A chunk is on time when the clock has not passed the cursor: the test
    of line 921 fails. *)
Definition on_time (e : entry) : Prop :=
  Double.ltb (cursor_before e) (clock e) = false.

(** The durations of the entries, added to a start one after the other. *)
Definition add_durations (start : number) (l : list entry) : number :=
  fold_left (fun acc e => Double.add acc (bufferDuration (call e))) l start.



End Playback.

(** ** JavaScript strings

  A string is its sequence of UTF-16 code units, which is what
  [String.prototype.trim] and the truthiness test look at. *)
Module Js.

Definition jsstring : Type := list N.

(** An ASCII literal as a JavaScript string. *)
Definition js (s : string) : jsstring :=
  map N_of_ascii (list_ascii_of_string s).

(** ECMAScript WhiteSpace and LineTerminator code points, the characters
    [trim] strips. *)
Definition is_white_space (c : N) : bool :=
  ((9 <=? c) && (c <=? 13) || (c =? 32) || (c =? 160) || (c =? 5760)
   || (8192 <=? c) && (c <=? 8202) || (c =? 8232) || (c =? 8233)
   || (c =? 8239) || (c =? 8287) || (c =? 12288) || (c =? 65279))%N.

Fixpoint trimStart (s : jsstring) : jsstring :=
  match s with
  | [] => []
  | c :: rest => if is_white_space c then trimStart rest else s
  end.

Definition trimEnd (s : jsstring) : jsstring := rev (trimStart (rev s)).

Definition trim (s : jsstring) : jsstring := trimEnd (trimStart s).

(** Truthiness of a string: only the empty string is falsy. *)
Definition truthy (s : jsstring) : bool :=
  match s with [] => false | _ :: _ => true end.

Definition eqb (a b : jsstring) : bool :=
  if list_eq_dec N.eq_dec a b then true else false.

(** A string that is empty or made of white space only. *)
Definition blank (s : jsstring) : bool := forallb is_white_space s.

(** [s] is a prefix of [t]; [s] occurs somewhere in [t]. *)
Fixpoint prefixb (s t : jsstring) : bool :=
  match s, t with
  | [], _ => true
  | _ :: _, [] => false
  | a :: s', b :: t' => (a =? b)%N && prefixb s' t'
  end.

Fixpoint includesb (s t : jsstring) : bool :=
  prefixb s t || match t with [] => false | _ :: t' => includesb s t' end.

Definition base64_digit (v : Z) : N :=
  if v <? 26 then Z.to_N (65 + v)
  else if v <? 52 then Z.to_N (97 + (v - 26))
  else if v <? 62 then Z.to_N (48 + (v - 52))
  else if v =? 62 then 43%N else 47%N.

(** [btoa(String.fromCharCode(...bytes))]. *)
Fixpoint btoa (bytes : list Z) : jsstring :=
  match bytes with
  | [] => []
  | [a] =>
      [base64_digit (a / 4); base64_digit (a mod 4 * 16); 61%N; 61%N]
  | [a; b] =>
      [base64_digit (a / 4); base64_digit (a mod 4 * 16 + b / 16);
       base64_digit (b mod 16 * 4); 61%N]
  | a :: b :: c :: rest =>
      base64_digit (a / 4) :: base64_digit (a mod 4 * 16 + b / 16)
      :: base64_digit (b mod 16 * 4 + c / 64) :: base64_digit (c mod 64)
      :: btoa rest
  end.

End Js.

Import Js.

(** ** The two transcript panes *)
Module Dom.

(** Children of the raw transcript container: finalized segments (spans of
    class [transcript-segment], which may carry the class
    [active-translation]) and interim spans.  Interim spans carry an
    identity, because the application keeps a reference to one of them. *)
Inductive node : Type :=
| Segment (textContent : jsstring) (active_translation : bool)
| Interim (id : nat) (textContent : jsstring).

Record container : Type := mkContainer {
  children : list node;
  placeholder_active : bool
}.

(** Children of the translated pane: a span rendered from a text by
    [marked.parseInline], or a text node. *)
Inductive tnode : Type :=
| Rendered (markdown : jsstring)
| TextNode (data : jsstring).

Definition is_segment (n : node) : bool :=
  match n with Segment _ _ => true | Interim _ _ => false end.

Definition has_id (i : nat) (n : node) : bool :=
  match n with Interim j _ => Nat.eqb i j | Segment _ _ => false end.

(** [span.parentNode === container]. *)
Definition attached (i : nat) (c : container) : bool :=
  existsb (has_id i) (children c).

(** [container.insertBefore(n, ref)] where [ref] is the interim span [i]. *)
Fixpoint insertBefore (n : node) (i : nat) (l : list node) : list node :=
  match l with
  | [] => [n]
  | x :: rest =>
      if has_id i x then n :: x :: rest else x :: insertBefore n i rest
  end.

(** [span.textContent = text] on the interim span [i]. *)
Definition set_text (i : nat) (text : jsstring) (l : list node) : list node :=
  map (fun n => if has_id i n then Interim i text else n) l.

(** The finalized sequence: the texts of the segments, in document
    order. *)
Fixpoint segments (l : list node) : list jsstring :=
  match l with
  | [] => []
  | Segment t _ :: rest => t :: segments rest
  | Interim _ _ :: rest => segments rest
  end.

(** The text of the interim span [i], when it is in the list. *)
Fixpoint interim_text (i : nat) (l : list node) : option jsstring :=
  match l with
  | [] => None
  | Interim j t :: rest => if Nat.eqb i j then Some t else interim_text i rest
  | Segment _ _ :: rest => interim_text i rest
  end.

Definition clear_active (n : node) : node :=
  match n with Segment t _ => Segment t false | _ => n end.

(** Marks the last segment of the list, scanning from the end. *)
Fixpoint mark_last_rev (l : list node) : list node :=
  match l with
  | [] => []
  | Segment t _ :: rest => Segment t true :: rest
  | n :: rest => n :: mark_last_rev rest
  end.

Definition mark_last (l : list node) : list node :=
  rev (mark_last_rev (rev l)).

End Dom.

Import Dom.

(** ** The application object and its environment *)
Module App.

Inductive source_type : Type := mic | system.

Inductive kind : Type := audio | video.

(** A [MediaStreamTrack] of a granted stream. *)
Record track : Type := mkTrack {
  track_id : nat;
  track_kind : kind
}.

(** A thrown value: its [name] and [message] properties. *)
Record error : Type := mkError {
  name : jsstring;
  message : jsstring
}.

(** Callbacks handed to [setTimeout]. *)
Inductive callback : Type :=
| restart_recognition
| reset_status.

(** What the application does to its collaborators, in order. *)
Inductive effect : Type :=
| Console (first_argument : string)
| TrackStop (t : track)
| RecognitionStart
| RecognitionStop
| GenerateContent (text targetLanguage : jsstring)
| SessionSend (text : jsstring) (endOfTurn : bool)
| SendRealtimeInput (mimeType : jsstring) (data : jsstring)
| GetDisplayMedia
| GetUserMedia (deviceId : option jsstring)
| Connect (systemInstruction : jsstring)
| Resume.

(** The constants of [startLiveSession] that the callbacks of a session
    capture. *)
Record captured : Type := mkCaptured {
  isTranslationMode : bool;
  selectedOutputLanguageText : jsstring
}.

(** The fields of the application object.  Objects that are only tested
    against [null] are booleans; [is_live] stands for the live display
    ([startLiveDisplay] / [stopLiveDisplay]); [timers] holds the pending
    [setTimeout] callbacks with their delays; [next_id] numbers the
    interim spans that are created. *)
Record app : Type := mkApp {
  isRecording : bool;
  recordingStatus : jsstring;
  isWebSpeechActive : bool;
  nextStartTime : number;
  selectedSourceType : source_type;
  rawTranscription : container;
  rawInterimSpan : option nat;
  translatedContent : list tnode;
  translated_placeholder : bool;
  stream : option (list track);
  recognition : bool;
  audioContext : bool;
  outputAudioContext : bool;
  outputGainNode : bool;
  sourceNode : bool;
  processor : bool;
  onaudioprocess : bool;
  sessionPromise : bool;
  is_live : bool;
  closure : captured;
  timers : list (callback * Z);
  effects : list effect;
  next_id : nat
}.

(** Assignment to a field. *)
Definition set_isRecording (v : bool) (s : app) : app :=
  mkApp v (recordingStatus s) (isWebSpeechActive s) (nextStartTime s)
    (selectedSourceType s) (rawTranscription s) (rawInterimSpan s)
    (translatedContent s) (translated_placeholder s) (stream s)
    (recognition s) (audioContext s) (outputAudioContext s)
    (outputGainNode s) (sourceNode s) (processor s) (onaudioprocess s)
    (sessionPromise s) (is_live s) (closure s) (timers s) (effects s)
    (next_id s).

Definition set_recordingStatus (v : jsstring) (s : app) : app :=
  mkApp (isRecording s) v (isWebSpeechActive s) (nextStartTime s)
    (selectedSourceType s) (rawTranscription s) (rawInterimSpan s)
    (translatedContent s) (translated_placeholder s) (stream s)
    (recognition s) (audioContext s) (outputAudioContext s)
    (outputGainNode s) (sourceNode s) (processor s) (onaudioprocess s)
    (sessionPromise s) (is_live s) (closure s) (timers s) (effects s)
    (next_id s).

Definition set_isWebSpeechActive (v : bool) (s : app) : app :=
  mkApp (isRecording s) (recordingStatus s) v (nextStartTime s)
    (selectedSourceType s) (rawTranscription s) (rawInterimSpan s)
    (translatedContent s) (translated_placeholder s) (stream s)
    (recognition s) (audioContext s) (outputAudioContext s)
    (outputGainNode s) (sourceNode s) (processor s) (onaudioprocess s)
    (sessionPromise s) (is_live s) (closure s) (timers s) (effects s)
    (next_id s).

Definition set_nextStartTime (v : number) (s : app) : app :=
  mkApp (isRecording s) (recordingStatus s) (isWebSpeechActive s) v
    (selectedSourceType s) (rawTranscription s) (rawInterimSpan s)
    (translatedContent s) (translated_placeholder s) (stream s)
    (recognition s) (audioContext s) (outputAudioContext s)
    (outputGainNode s) (sourceNode s) (processor s) (onaudioprocess s)
    (sessionPromise s) (is_live s) (closure s) (timers s) (effects s)
    (next_id s).

Definition set_selectedSourceType (v : source_type) (s : app) : app :=
  mkApp (isRecording s) (recordingStatus s) (isWebSpeechActive s)
    (nextStartTime s) v (rawTranscription s) (rawInterimSpan s)
    (translatedContent s) (translated_placeholder s) (stream s)
    (recognition s) (audioContext s) (outputAudioContext s)
    (outputGainNode s) (sourceNode s) (processor s) (onaudioprocess s)
    (sessionPromise s) (is_live s) (closure s) (timers s) (effects s)
    (next_id s).

Definition set_rawTranscription (v : container) (s : app) : app :=
  mkApp (isRecording s) (recordingStatus s) (isWebSpeechActive s)
    (nextStartTime s) (selectedSourceType s) v (rawInterimSpan s)
    (translatedContent s) (translated_placeholder s) (stream s)
    (recognition s) (audioContext s) (outputAudioContext s)
    (outputGainNode s) (sourceNode s) (processor s) (onaudioprocess s)
    (sessionPromise s) (is_live s) (closure s) (timers s) (effects s)
    (next_id s).

Definition set_rawInterimSpan (v : option nat) (s : app) : app :=
  mkApp (isRecording s) (recordingStatus s) (isWebSpeechActive s)
    (nextStartTime s) (selectedSourceType s) (rawTranscription s) v
    (translatedContent s) (translated_placeholder s) (stream s)
    (recognition s) (audioContext s) (outputAudioContext s)
    (outputGainNode s) (sourceNode s) (processor s) (onaudioprocess s)
    (sessionPromise s) (is_live s) (closure s) (timers s) (effects s)
    (next_id s).

Definition set_translatedContent (v : list tnode) (s : app) : app :=
  mkApp (isRecording s) (recordingStatus s) (isWebSpeechActive s)
    (nextStartTime s) (selectedSourceType s) (rawTranscription s)
    (rawInterimSpan s) v (translated_placeholder s) (stream s)
    (recognition s) (audioContext s) (outputAudioContext s)
    (outputGainNode s) (sourceNode s) (processor s) (onaudioprocess s)
    (sessionPromise s) (is_live s) (closure s) (timers s) (effects s)
    (next_id s).

Definition set_translated_placeholder (v : bool) (s : app) : app :=
  mkApp (isRecording s) (recordingStatus s) (isWebSpeechActive s)
    (nextStartTime s) (selectedSourceType s) (rawTranscription s)
    (rawInterimSpan s) (translatedContent s) v (stream s) (recognition s)
    (audioContext s) (outputAudioContext s) (outputGainNode s)
    (sourceNode s) (processor s) (onaudioprocess s) (sessionPromise s)
    (is_live s) (closure s) (timers s) (effects s) (next_id s).

Definition set_stream (v : option (list track)) (s : app) : app :=
  mkApp (isRecording s) (recordingStatus s) (isWebSpeechActive s)
    (nextStartTime s) (selectedSourceType s) (rawTranscription s)
    (rawInterimSpan s) (translatedContent s) (translated_placeholder s) v
    (recognition s) (audioContext s) (outputAudioContext s)
    (outputGainNode s) (sourceNode s) (processor s) (onaudioprocess s)
    (sessionPromise s) (is_live s) (closure s) (timers s) (effects s)
    (next_id s).

Definition set_recognition (v : bool) (s : app) : app :=
  mkApp (isRecording s) (recordingStatus s) (isWebSpeechActive s)
    (nextStartTime s) (selectedSourceType s) (rawTranscription s)
    (rawInterimSpan s) (translatedContent s) (translated_placeholder s)
    (stream s) v (audioContext s) (outputAudioContext s) (outputGainNode s)
    (sourceNode s) (processor s) (onaudioprocess s) (sessionPromise s)
    (is_live s) (closure s) (timers s) (effects s) (next_id s).

Definition set_audioContext (v : bool) (s : app) : app :=
  mkApp (isRecording s) (recordingStatus s) (isWebSpeechActive s)
    (nextStartTime s) (selectedSourceType s) (rawTranscription s)
    (rawInterimSpan s) (translatedContent s) (translated_placeholder s)
    (stream s) (recognition s) v (outputAudioContext s) (outputGainNode s)
    (sourceNode s) (processor s) (onaudioprocess s) (sessionPromise s)
    (is_live s) (closure s) (timers s) (effects s) (next_id s).

Definition set_outputAudioContext (v : bool) (s : app) : app :=
  mkApp (isRecording s) (recordingStatus s) (isWebSpeechActive s)
    (nextStartTime s) (selectedSourceType s) (rawTranscription s)
    (rawInterimSpan s) (translatedContent s) (translated_placeholder s)
    (stream s) (recognition s) (audioContext s) v (outputGainNode s)
    (sourceNode s) (processor s) (onaudioprocess s) (sessionPromise s)
    (is_live s) (closure s) (timers s) (effects s) (next_id s).

Definition set_outputGainNode (v : bool) (s : app) : app :=
  mkApp (isRecording s) (recordingStatus s) (isWebSpeechActive s)
    (nextStartTime s) (selectedSourceType s) (rawTranscription s)
    (rawInterimSpan s) (translatedContent s) (translated_placeholder s)
    (stream s) (recognition s) (audioContext s) (outputAudioContext s) v
    (sourceNode s) (processor s) (onaudioprocess s) (sessionPromise s)
    (is_live s) (closure s) (timers s) (effects s) (next_id s).

Definition set_sourceNode (v : bool) (s : app) : app :=
  mkApp (isRecording s) (recordingStatus s) (isWebSpeechActive s)
    (nextStartTime s) (selectedSourceType s) (rawTranscription s)
    (rawInterimSpan s) (translatedContent s) (translated_placeholder s)
    (stream s) (recognition s) (audioContext s) (outputAudioContext s)
    (outputGainNode s) v (processor s) (onaudioprocess s) (sessionPromise s)
    (is_live s) (closure s) (timers s) (effects s) (next_id s).

Definition set_processor (v : bool) (s : app) : app :=
  mkApp (isRecording s) (recordingStatus s) (isWebSpeechActive s)
    (nextStartTime s) (selectedSourceType s) (rawTranscription s)
    (rawInterimSpan s) (translatedContent s) (translated_placeholder s)
    (stream s) (recognition s) (audioContext s) (outputAudioContext s)
    (outputGainNode s) (sourceNode s) v (onaudioprocess s)
    (sessionPromise s) (is_live s) (closure s) (timers s) (effects s)
    (next_id s).

Definition set_onaudioprocess (v : bool) (s : app) : app :=
  mkApp (isRecording s) (recordingStatus s) (isWebSpeechActive s)
    (nextStartTime s) (selectedSourceType s) (rawTranscription s)
    (rawInterimSpan s) (translatedContent s) (translated_placeholder s)
    (stream s) (recognition s) (audioContext s) (outputAudioContext s)
    (outputGainNode s) (sourceNode s) (processor s) v (sessionPromise s)
    (is_live s) (closure s) (timers s) (effects s) (next_id s).

Definition set_sessionPromise (v : bool) (s : app) : app :=
  mkApp (isRecording s) (recordingStatus s) (isWebSpeechActive s)
    (nextStartTime s) (selectedSourceType s) (rawTranscription s)
    (rawInterimSpan s) (translatedContent s) (translated_placeholder s)
    (stream s) (recognition s) (audioContext s) (outputAudioContext s)
    (outputGainNode s) (sourceNode s) (processor s) (onaudioprocess s) v
    (is_live s) (closure s) (timers s) (effects s) (next_id s).

Definition set_is_live (v : bool) (s : app) : app :=
  mkApp (isRecording s) (recordingStatus s) (isWebSpeechActive s)
    (nextStartTime s) (selectedSourceType s) (rawTranscription s)
    (rawInterimSpan s) (translatedContent s) (translated_placeholder s)
    (stream s) (recognition s) (audioContext s) (outputAudioContext s)
    (outputGainNode s) (sourceNode s) (processor s) (onaudioprocess s)
    (sessionPromise s) v (closure s) (timers s) (effects s) (next_id s).

Definition set_closure (v : captured) (s : app) : app :=
  mkApp (isRecording s) (recordingStatus s) (isWebSpeechActive s)
    (nextStartTime s) (selectedSourceType s) (rawTranscription s)
    (rawInterimSpan s) (translatedContent s) (translated_placeholder s)
    (stream s) (recognition s) (audioContext s) (outputAudioContext s)
    (outputGainNode s) (sourceNode s) (processor s) (onaudioprocess s)
    (sessionPromise s) (is_live s) v (timers s) (effects s) (next_id s).

Definition set_timers (v : list (callback * Z)) (s : app) : app :=
  mkApp (isRecording s) (recordingStatus s) (isWebSpeechActive s)
    (nextStartTime s) (selectedSourceType s) (rawTranscription s)
    (rawInterimSpan s) (translatedContent s) (translated_placeholder s)
    (stream s) (recognition s) (audioContext s) (outputAudioContext s)
    (outputGainNode s) (sourceNode s) (processor s) (onaudioprocess s)
    (sessionPromise s) (is_live s) (closure s) v (effects s) (next_id s).

Definition set_effects (v : list effect) (s : app) : app :=
  mkApp (isRecording s) (recordingStatus s) (isWebSpeechActive s)
    (nextStartTime s) (selectedSourceType s) (rawTranscription s)
    (rawInterimSpan s) (translatedContent s) (translated_placeholder s)
    (stream s) (recognition s) (audioContext s) (outputAudioContext s)
    (outputGainNode s) (sourceNode s) (processor s) (onaudioprocess s)
    (sessionPromise s) (is_live s) (closure s) (timers s) v (next_id s).

Definition set_next_id (v : nat) (s : app) : app :=
  mkApp (isRecording s) (recordingStatus s) (isWebSpeechActive s)
    (nextStartTime s) (selectedSourceType s) (rawTranscription s)
    (rawInterimSpan s) (translatedContent s) (translated_placeholder s)
    (stream s) (recognition s) (audioContext s) (outputAudioContext s)
    (outputGainNode s) (sourceNode s) (processor s) (onaudioprocess s)
    (sessionPromise s) (is_live s) (closure s) (timers s) (effects s) v.

Definition emit (e : effect) (s : app) : app :=
  set_effects (effects s ++ [e]) s.

Definition source_eqb (a b : source_type) : bool :=
  match a, b with
  | mic, mic | system, system => true
  | _, _ => false
  end.

Definition is_audio (t : track) : bool :=
  match track_kind t with audio => true | video => false end.

(** [stream.getTracks().forEach(t => t.stop())]. *)
Definition stop_tracks (l : list track) (s : app) : app :=
  fold_left (fun acc t => emit (TrackStop t) acc) l s.

Definition is_start (e : effect) : bool :=
  match e with RecognitionStart => true | _ => false end.

Definition is_realtime_input (e : effect) : bool :=
  match e with SendRealtimeInput _ _ => true | _ => false end.

Definition is_action (e : effect) : bool :=
  match e with Console _ => false | _ => true end.

(** Everything done so far apart from console logging. *)
Definition actions (s : app) : list effect := filter is_action (effects s).

(** The calls of [recognition.start()] and the audio chunks sent so far. *)
Definition restarts (s : app) : list effect := filter is_start (effects s).

Definition realtime_inputs (s : app) : list effect :=
  filter is_realtime_input (effects s).

(** The fields that decide whether the recogniser is restarted and whether
    audio is sent, with the record of what was done. *)
Definition control (s : app) : bool * bool * bool * bool * list effect :=
  (isRecording s, isWebSpeechActive s, processor s, onaudioprocess s,
   effects s).

(** The fields that wire a session: source, captured constants, stream,
    connection, audio nodes, recogniser, timers and status line. *)
Definition wiring (s : app) :=
  (selectedSourceType s, closure s, stream s, sessionPromise s,
   (sourceNode s, audioContext s, outputAudioContext s, outputGainNode s),
   recognition s, timers s, recordingStatus s, is_live s).


(** What a callback may change: it never raises one of the two flags, never
    creates the processor, installs the audio handler only on a processor,
    and what it adds to the record contains a restart only if both flags
    were up and an audio chunk only if the audio handler was installed. *)
Definition step (s s' : app) : Prop :=
  (isRecording s' = true -> isRecording s = true)
  /\ (isWebSpeechActive s' = true -> isWebSpeechActive s = true)
  /\ (processor s' = true -> processor s = true)
  /\ (onaudioprocess s' = true -> processor s' = true /\ processor s = true
      \/ onaudioprocess s = true /\ processor s' = processor s)
  /\ exists l,
       effects s' = effects s ++ l
       /\ (filter is_start l = []
           \/ isRecording s = true /\ isWebSpeechActive s = true)
       /\ (filter is_realtime_input l = [] \/ onaudioprocess s = true).

(** The object before any session: what the field initialisers give. *)
Definition initial : app :=
  {| isRecording := false; recordingStatus := [];
     isWebSpeechActive := false; nextStartTime := Fin 0;
     selectedSourceType := mic;
     rawTranscription := mkContainer [] true; rawInterimSpan := None;
     translatedContent := []; translated_placeholder := true;
     stream := None; recognition := false; audioContext := false;
     outputAudioContext := false; outputGainNode := false;
     sourceNode := false; processor := false; onaudioprocess := false;
     sessionPromise := false; is_live := false;
     closure := mkCaptured false [];
     timers := []; effects := []; next_id := O |}.

End App.

Import App.

(** ** Mode resolution: the system prompt of [startLiveSession]

  Lines 640-668 and 1126-1154 are the same text in both classes. *)
Module ModeResolver.

Definition nl : jsstring := [10%N].

(** [selectedOutputLanguage !== 'none' &&
     selectedOutputLanguage !== selectedInputLanguage]. *)
Definition translation_mode (selectedInputLanguage selectedOutputLanguage : jsstring)
    : bool :=
  negb (Js.eqb selectedOutputLanguage (js "none"))
  && negb (Js.eqb selectedOutputLanguage selectedInputLanguage).

(** [selectedOutputOption ? selectedOutputOption.text : selectedOutputLanguage]. *)
Definition outputLanguageText (option_text : option jsstring)
    (selectedOutputLanguage : jsstring) : jsstring :=
  match option_text with
  | Some t => t
  | None => selectedOutputLanguage
  end.

Definition reader_prompt (lang : jsstring) : jsstring :=
  js "You are a text-to-speech engine. " ++ nl
  ++ js "          You will receive text in [" ++ lang ++ js "]. " ++ nl
  ++ js "          Your ONLY task is to read it aloud instantly with a warm, highly motivated, faithfully convicted tone in ["
  ++ lang ++ js "]." ++ nl
  ++ js "          Do not translate (it is already translated). " ++ nl
  ++ js "          Do not comment. " ++ nl
  ++ js "          Just read the text provided.".

Definition translator_prompt (lang : jsstring) : jsstring :=
  js "Your job is to translate the input audio into [" ++ lang
  ++ js "] and natively read aloud in a warm highly motivated, faithfully convicted style of voice and tone. "
  ++ nl
  ++ js "           You are not allowed to interact or comment." ++ nl
  ++ js "           Your only task is to listen, translate, and read aloud the translation."
  ++ nl
  ++ js "           Start continuously.".

Definition transcriber_prompt : jsstring :=
  js "You are a professional transcription assistant. " ++ nl
  ++ js "          Your task is to listen to the user audio and generate accurate transcriptions."
  ++ nl
  ++ js "          Do not hallucinate. If the audio is silent, do not output text."
  ++ nl
  ++ js "          IMPORTANT: You must not speak. Output only silence in the audio channel unless you need to clarify something briefly.".

(** The [if / else if / else] that assigns [systemInstruction]. *)
Definition systemInstruction (source : source_type) (isTranslationMode : bool)
    (lang : jsstring) : jsstring :=
  if source_eqb source mic && isTranslationMode then reader_prompt lang
  else if source_eqb source system && isTranslationMode
       then translator_prompt lang
       else transcriber_prompt.

(** The three modes the specification names, read off the same tests. *)
Inductive mode : Type := MicTranslate | SystemTranslate | TranscribeOnly.

Definition resolved_mode (source : source_type) (isTranslationMode : bool)
    : mode :=
  if source_eqb source mic && isTranslationMode then MicTranslate
  else if source_eqb source system && isTranslationMode
       then SystemTranslate
       else TranscribeOnly.

(** [s] occurs in [t]. *)
Definition occurs_in (s t : jsstring) : Prop :=
  exists before after, t = before ++ s ++ after.

End ModeResolver.

(** ** Members shared by the handlers of [VoiceNotesApp] *)
Module Transcript.

(** [ensureInterimSpan] (lines 520-527). *)
Definition ensureInterimSpan (s : app) : app :=
  let missing :=
    match rawInterimSpan s with
    | None => true
    | Some i => negb (attached i (rawTranscription s))
    end in
  if missing then
    let i := next_id s in
    let c := rawTranscription s in
    set_next_id (S i)
      (set_rawTranscription
         (mkContainer (children c ++ [Interim i []]) (placeholder_active c))
         (set_rawInterimSpan (Some i) s))
  else s.

(** [appendRawSegment] (lines 484-504).  The timestamp attribute and the
    scroll position are not part of the model. *)
Definition appendRawSegment (text : jsstring) (s : app) : app :=
  if negb (truthy text) || negb (truthy (trim text)) then s
  else
    let c := rawTranscription s in
    let span := Segment (text ++ js " ") false in
    match rawInterimSpan s with
    | Some i =>
        if attached i c then
          set_rawTranscription
            (mkContainer (insertBefore span i (children c)) false) s
        else
          ensureInterimSpan
            (set_rawTranscription (mkContainer (children c ++ [span]) false) s)
    | None =>
        ensureInterimSpan
          (set_rawTranscription (mkContainer (children c ++ [span]) false) s)
    end.

(** [updateInterimText] (lines 509-518). *)
Definition updateInterimText (text : jsstring) (s : app) : app :=
  let s1 := ensureInterimSpan s in
  match rawInterimSpan s1 with
  | Some i =>
      let c := rawTranscription s1 in
      set_rawTranscription
        (mkContainer (set_text i text (children c))
           (if truthy text then false else placeholder_active c)) s1
  | None => s1
  end.

(** [highlightActiveSegment] (lines 533-548). *)
Definition highlightActiveSegment (s : app) : app :=
  let c := rawTranscription s in
  if existsb is_segment (children c) then
    set_rawTranscription
      (mkContainer (mark_last (map clear_active (children c)))
         (placeholder_active c)) s
  else s.

(** [appendTranslatedText] (lines 553-566). *)
Definition appendTranslatedText (text : jsstring) (s : app) : app :=
  if negb (truthy text) then s
  else
    set_translated_placeholder false
      (set_translatedContent
         (translatedContent s ++ [Rendered text; TextNode (js " ")]) s).

(** The reset of both panes at the start of a session (lines 624-627):
    [innerHTML = ''] empties a pane and leaves its classes alone. *)
Definition reset_panes (s : app) : app :=
  let c := rawTranscription s in
  set_translatedContent []
    (ensureInterimSpan
       (set_rawInterimSpan None
          (set_rawTranscription (mkContainer [] (placeholder_active c)) s))).

(** The finalized sequence and the interim slot of the raw pane. *)
Definition finalized (s : app) : list jsstring :=
  segments (children (rawTranscription s)).

Definition interim_slot (s : app) : option jsstring :=
  match rawInterimSpan s with
  | Some i => interim_text i (children (rawTranscription s))
  | None => None
  end.

(** The state of the raw pane: its container and the reference to the
    interim span. *)
Definition panes (s : app) : container * option nat :=
  (rawTranscription s, rawInterimSpan s).

(** The interim span is the last child of the raw pane, the field
    [rawInterimSpan] refers to it, and every child before it is a finalized
    segment. *)
Definition interim_last (s : app) : Prop :=
  exists segs i t,
    children (rawTranscription s) = segs ++ [Interim i t]
    /\ forallb is_segment segs = true
    /\ rawInterimSpan s = Some i.

End Transcript.

Import Transcript.

(** ** What the browser and the cloud answer *)
Module Browser.

(** The controls read and the calls awaited by [startLiveSession], each
    with the answer it gets. *)
Record environment : Type := mkEnvironment {
  api_key : bool;
  unifiedSourceSelect : jsstring;
  deviceSelect : jsstring;
  languageSelect : jsstring;
  translationSelect : jsstring;
  translationOption : option jsstring;
  getDisplayMedia : error + list track;
  getUserMedia : error + list track;
  speechRecognition : bool;
  recognition_start_throws : bool;
  output_suspended : bool
}.

(** One entry of [event.results]: [isFinal] and [[0].transcript]. *)
Record recognition_result : Type := mkResult {
  isFinal : bool;
  transcript : jsstring
}.

(** How [generateContent] settles: rejected, or resolved with a response
    whose [text] may be undefined. *)
Inductive generate_outcome : Type :=
| Rejected
| Resolved (text : option jsstring).

(** The callbacks the collaborators may invoke during one session, from
    its start to a click on the button that stops it.  A [Timeout] carries
    whether the [recognition.start()] it may reach throws.  The tasks of
    the whole page, with the starts, the other clicks and the messages of
    the live session, come with [Page.task]. *)
Inductive event : Type :=
| Result (resultIndex : nat) (results : list recognition_result)
| RecognitionError (code : jsstring)
| RecognitionEnd
| Timeout (cb : callback) (start_throws : bool)
| AudioProcess (inputData : list number)
| Open
| Close
| ConnectionError
| Translated (outcome : generate_outcome)
| StopClicked.

Definition callback_eqb (a b : callback) : bool :=
  match a, b with
  | restart_recognition, restart_recognition => true
  | reset_status, reset_status => true
  | _, _ => false
  end.

(** Removes the first pending timer for [cb]; [None] when there is none. *)
Fixpoint take_timer (cb : callback) (l : list (callback * Z))
    : option (list (callback * Z)) :=
  match l with
  | [] => None
  | (c, d) :: rest =>
      if callback_eqb cb c then Some rest
      else match take_timer cb rest with
           | Some r => Some ((c, d) :: r)
           | None => None
           end
  end.

(** The loop of [recognition.onresult]: the transcripts from
    [resultIndex] on, finals and interims concatenated apart. *)
Fixpoint collect (results : list recognition_result) : jsstring * jsstring :=
  match results with
  | [] => ([], [])
  | r :: rest =>
      let '(final, interim) := collect rest in
      if isFinal r then (transcript r ++ final, interim)
      else (final, transcript r ++ interim)
  end.

(** The text of the selected output language. *)
Definition language_text (env : environment) : jsstring :=
  ModeResolver.outputLanguageText (translationOption env)
    (translationSelect env).

(** A microphone session with translation, on a browser that has the
    recogniser. *)
Definition mic_translating : environment :=
  mkEnvironment true (js "default") (js "default") (js "en-US") (js "es")
    (Some (js "Spanish")) (inr [mkTrack 0 video])
    (inr [mkTrack 1 audio]) true false false.

(** The same session on a browser without the recogniser. *)
Definition mic_translating_without_recogniser : environment :=
  mkEnvironment true (js "default") (js "default") (js "en-US") (js "es")
    (Some (js "Spanish")) (inr [mkTrack 0 video])
    (inr [mkTrack 1 audio]) false false false.

(** A display capture whose grant holds one video track and no audio
    track. *)
Definition silent_grant : environment :=
  mkEnvironment true (js "system") (js "default") (js "auto") (js "none")
    None (inr [mkTrack 7 video]) (inr [mkTrack 1 audio]) true false false.

(** A microphone session without translation. *)
Definition mic_transcribing : environment :=
  mkEnvironment true (js "default") (js "default") (js "en-US") (js "none")
    None (inr []) (inr [mkTrack 1 audio]) true false false.

End Browser.

Import Browser.

(** ** Class [VoiceNotesApp] (lines 21-1013) *)
Module VoiceNotesApp.

(** [translateTextWithFlash] (lines 580-591), after the request has
    settled: a rejection, and the TypeError of [undefined.trim()], are
    caught, logged and turned into the empty string. *)
Definition translateTextWithFlash (outcome : generate_outcome) (s : app)
    : jsstring * app :=
  match outcome with
  | Resolved (Some text) => (trim text, s)
  | Resolved None | Rejected => ([], emit (Console "Translation error:") s)
  end.

(** [handleTranslationAndTTS] (lines 596-613) up to its [await]: the
    request goes out. *)
Definition handleTranslationAndTTS_request (text targetLanguageName : jsstring)
    (s : app) : app :=
  emit (GenerateContent text targetLanguageName) s.

(** [handleTranslationAndTTS] from its [await] on.  The send is queued on
    the session promise. *)
Definition handleTranslationAndTTS (outcome : generate_outcome) (s : app)
    : app :=
  let '(translatedText, s1) := translateTextWithFlash outcome s in
  if negb (truthy translatedText) then s1
  else
    let s2 := highlightActiveSegment (appendTranslatedText translatedText s1) in
    if sessionPromise s2 then emit (SessionSend translatedText true) s2
    else s2.

(** [recognition.onresult] (lines 710-730). *)
Definition onresult (resultIndex : nat) (results : list recognition_result)
    (s : app) : app :=
  let '(final, interim) := collect (skipn resultIndex results) in
  let s1 :=
    if truthy final then
      let s' := appendRawSegment final s in
      if source_eqb (selectedSourceType s') mic
         && isTranslationMode (closure s')
      then handleTranslationAndTTS_request final
             (selectedOutputLanguageText (closure s')) s'
      else s'
    else s in
  updateInterimText interim s1.

(** [recognition.onerror] (lines 732-737). *)
Definition onerror (code : jsstring) (s : app) : app :=
  let s1 := emit (Console "WebSpeech error") s in
  if Js.eqb code (js "aborted") || Js.eqb code (js "not-allowed")
  then set_isWebSpeechActive false s1
  else s1.

(** [recognition.onend] (lines 739-750). *)
Definition onend (s : app) : app :=
  if isRecording s && isWebSpeechActive s
  then set_timers (timers s ++ [(restart_recognition, 100)]) s
  else s.

(** The callback [onend] hands to [setTimeout] (lines 742-747). *)
Definition restart (start_throws : bool) (s : app) : app :=
  if isRecording s && isWebSpeechActive s then
    let s1 := emit RecognitionStart s in
    if start_throws
    then set_isWebSpeechActive false (emit (Console "WebSpeech restart failed") s1)
    else s1
  else s.

(** [processor.onaudioprocess] (lines 817-837). *)
Definition audioprocess (inputData : list number) (s : app) : app :=
  let base64Audio := btoa (Pcm.Uint8_view (Pcm.pcmData inputData)) in
  if sessionPromise s
  then emit (SendRealtimeInput (js "audio/pcm;rate=16000") base64Audio) s
  else s.

(** [onopen] (lines 799-839). *)
Definition onopen (s : app) : app :=
  let s1 := set_is_live true (set_recordingStatus (js "Live Session Active") s) in
  let shouldStreamAudioToGemini :=
    source_eqb (selectedSourceType s1) system
    || negb (isTranslationMode (closure s1)) in
  if shouldStreamAudioToGemini && sourceNode s1 && processor s1 && audioContext s1
  then set_onaudioprocess true s1
  else s1.

(** [onclose] (lines 843-846) and [onerror] (lines 847-851) of the
    connection. *)
Definition onclose (s : app) : app :=
  set_is_live false (emit (Console "Live session closed") s).

Definition onconnectionerror (s : app) : app :=
  set_is_live false
    (set_recordingStatus (js "Connection Error")
       (emit (Console "Live session error:") s)).

(** [stopLiveSession] (lines 947-992) when no other task runs while it
    awaits the closing of the two contexts; [Page] has the method block
    by block. *)
Definition stopLiveSession (s : app) : app :=
  let s1 := set_recordingStatus (js "Stopping...") (set_isRecording false s) in
  let s2 :=
    if recognition s1
    then emit RecognitionStop (set_isWebSpeechActive false s1)
    else s1 in
  let s3 :=
    if processor s2
    then set_processor false (set_onaudioprocess false s2)
    else s2 in
  let s4 := if sourceNode s3 then set_sourceNode false s3 else s3 in
  let s5 :=
    match stream s4 with
    | Some tracks => set_stream None (stop_tracks tracks s4)
    | None => s4
    end in
  let s6 := if audioContext s5 then set_audioContext false s5 else s5 in
  let s7 :=
    if outputAudioContext s6 then set_outputAudioContext false s6 else s6 in
  set_recordingStatus (js "Session Ended") (set_is_live false s7).

(** The outer [catch] of [startLiveSession] (lines 855-859). *)
Definition start_failed (s : app) : app :=
  set_recordingStatus (js "Error starting session")
    (set_isRecording false (emit (Console "Error starting live session:") s)).

(** [startLiveSession] from the audio contexts on (lines 761-853).
    [createMediaStreamSource] throws on a stream without audio track; the
    new processor has no [onaudioprocess] handler yet. *)
Definition open_session (env : environment) (instruction : jsstring)
    (s : app) : app :=
  let s1 := set_outputAudioContext true (set_audioContext true s) in
  let s2 := if output_suspended env then emit Resume s1 else s1 in
  let s3 := set_outputGainNode true s2 in
  match stream s3 with
  | Some tracks =>
      if existsb is_audio tracks then
        set_sessionPromise true
          (emit (Connect instruction)
             (set_onaudioprocess false
                (set_processor true (set_sourceNode true s3))))
      else start_failed s3
  | None => start_failed s3
  end.

(** [startLiveSession], lines 617-627: the flags, the cursor and the panes
    are reset. *)
Definition begin_session (s : app) : app :=
  reset_panes
    (set_nextStartTime (Fin 0)
       (set_isWebSpeechActive false
          (set_recordingStatus (js "Initializing Live Session...")
             (set_isRecording true s)))).

(** [startLiveSession], lines 630-759: the plan is computed, the stream is
    acquired and, for the microphone, the recogniser is set up. *)
Definition acquire (env : environment) (s0 : app) : app :=
  let selectedInputLanguage := languageSelect env in
  let selectedOutputLanguage := translationSelect env in
  let text :=
    ModeResolver.outputLanguageText (translationOption env)
      selectedOutputLanguage in
  let translating :=
    ModeResolver.translation_mode selectedInputLanguage selectedOutputLanguage in
  let instruction :=
    ModeResolver.systemInstruction (selectedSourceType s0) translating text in
  let s1 := set_closure (mkCaptured translating text) s0 in
  match selectedSourceType s1 with
  | system =>
      match getDisplayMedia env with
      | inl _ =>
          set_recordingStatus (js "System audio permission denied.")
            (set_isRecording false
               (emit (Console "System audio denied") (emit GetDisplayMedia s1)))
      | inr tracks =>
          open_session env instruction
            (set_stream (Some tracks) (emit GetDisplayMedia s1))
      end
  | mic =>
      let deviceId :=
        if truthy (deviceSelect env)
           && negb (Js.eqb (deviceSelect env) (js "default"))
        then Some (deviceSelect env) else None in
      match getUserMedia env with
      | inl _ => start_failed (emit (GetUserMedia deviceId) s1)
      | inr tracks =>
          let s2 := set_stream (Some tracks) (emit (GetUserMedia deviceId) s1) in
          let s3 :=
            if speechRecognition env then
              let s' :=
                emit RecognitionStart
                  (set_recognition true (set_isWebSpeechActive true s2)) in
              if recognition_start_throws env
              then set_isWebSpeechActive false
                     (emit (Console "Failed to start WebSpeech") s')
              else s'
            else s2 in
          open_session env instruction s3
      end
  end.

(** [startLiveSession] (lines 615-860) when no other task runs while it
    awaits the stream and the resuming of the output context; [Page] has
    the method block by block. *)
Definition startLiveSession (env : environment) (s : app) : app :=
  acquire env (begin_session s).

(** Delivery of a callback of the session that [startLiveSession] has just
    set up, with the constants that start captured: a handler runs only
    while it is registered (the recogniser's on the recogniser object,
    [onaudioprocess] on the processor, the connection's once [connect] was
    called), a timer only when it is pending. *)
Definition handle (s : app) (e : event) : app :=
  match e with
  | Result i results => if recognition s then onresult i results s else s
  | RecognitionError code => if recognition s then onerror code s else s
  | RecognitionEnd => if recognition s then onend s else s
  | Timeout cb start_throws =>
      match take_timer cb (timers s) with
      | Some rest =>
          match cb with
          | restart_recognition => restart start_throws (set_timers rest s)
          | reset_status => set_timers rest s
          end
      | None => s
      end
  | AudioProcess inputData =>
      if onaudioprocess s then audioprocess inputData s else s
  | Open => if sessionPromise s then onopen s else s
  | Close => if sessionPromise s then onclose s else s
  | ConnectionError => if sessionPromise s then onconnectionerror s else s
  | Translated outcome => handleTranslationAndTTS outcome s
  | StopClicked => if isRecording s then stopLiveSession s else s
  end.

Definition run (s : app) (events : list event) : app :=
  fold_left handle events s.

(** The callbacks of the recogniser's end, of its restart timer and of the
    audio processor. *)
Definition end_or_audio (e : event) : bool :=
  match e with
  | RecognitionEnd | Timeout _ _ | AudioProcess _ => true
  | _ => false
  end.


End VoiceNotesApp.

(** ** Class [GeminiLiveApp] (lines 1020-1375)

  The raw pane of this class holds [div]s; a transcript item is a
  [Segment] and [rawInterimDiv] is the field [rawInterimSpan] of the
  model. *)
Module GeminiLiveApp.

Definition no_audio_track_message : jsstring :=
  js "No audio track selected. Did you forget to check 'Share Audio'?".

(** [ensureInterimContainer] (lines 1055-1060). *)
Definition ensureInterimContainer (s : app) : app :=
  match rawInterimSpan s with
  | Some _ => s
  | None =>
      let i := next_id s in
      let c := rawTranscription s in
      set_next_id (S i)
        (set_rawTranscription
           (mkContainer (children c ++ [Interim i []]) (placeholder_active c))
           (set_rawInterimSpan (Some i) s))
  end.

(** [appendTranscriptItem] (lines 1062-1066); [insertBefore(div, null)]
    appends. *)
Definition appendTranscriptItem (text speaker : jsstring) (s : app) : app :=
  let c := rawTranscription s in
  let div := Segment (speaker ++ js ": " ++ text) false in
  match rawInterimSpan s with
  | Some i =>
      set_rawTranscription
        (mkContainer (insertBefore div i (children c)) (placeholder_active c)) s
  | None =>
      set_rawTranscription
        (mkContainer (children c ++ [div]) (placeholder_active c)) s
  end.

(** [handleTranslationAndTTS] (lines 1068-1070) only logs. *)
Definition handleTranslationAndTTS (text lang : jsstring) (s : app) : app :=
  emit (Console "Translating to") s.

(** [updateInterimText] (lines 1072-1074). *)
Definition updateInterimText (text : jsstring) (s : app) : app :=
  match rawInterimSpan s with
  | Some i =>
      let c := rawTranscription s in
      set_rawTranscription
        (mkContainer (set_text i text (children c)) (placeholder_active c)) s
  | None => s
  end.

(** [startLiveDisplay] and [stopLiveDisplay] (lines 1076-1087). *)
Definition startLiveDisplay (s : app) : app := set_is_live true s.

Definition stopLiveDisplay (s : app) : app :=
  set_isRecording false (set_is_live false s).

(** [recognition.onresult] (lines 1217-1238). *)
Definition onresult (resultIndex : nat) (results : list recognition_result)
    (s : app) : app :=
  let s0 := emit (Console "WebSpeech Result Received") s in
  let '(final, interim) := collect (skipn resultIndex results) in
  let s1 :=
    if truthy final then
      let s' := appendTranscriptItem final (js "You") s0 in
      if source_eqb (selectedSourceType s') mic
         && isTranslationMode (closure s')
      then handleTranslationAndTTS final
             (selectedOutputLanguageText (closure s')) s'
      else s'
    else s0 in
  updateInterimText interim s1.

(** [recognition.onerror], [recognition.onend] and its timer callback
    (lines 1240-1259) are the text of lines 732-750. *)
Definition onerror : jsstring -> app -> app := VoiceNotesApp.onerror.
Definition onend : app -> app := VoiceNotesApp.onend.
Definition restart : bool -> app -> app := VoiceNotesApp.restart.

(** The callback of the status reset (lines 1186-1188). *)
Definition reset (s : app) : app :=
  if negb (isRecording s) then set_recordingStatus (js "Ready to stream") s
  else s.

(** [processor.onaudioprocess] (lines 1330-1352): the same conversion; the
    chunk is wrapped in a [media] object. *)
Definition audioprocess : list number -> app -> app :=
  VoiceNotesApp.audioprocess.

(** [onopen] (lines 1310-1354). *)
Definition onopen (s : app) : app :=
  let s1 :=
    startLiveDisplay (set_recordingStatus (js "Live Session Active") s) in
  let isMicFallback :=
    source_eqb (selectedSourceType s1) mic && negb (isWebSpeechActive s1) in
  let shouldStreamAudioToGemini :=
    source_eqb (selectedSourceType s1) system
    || negb (isTranslationMode (closure s1))
    || isMicFallback in
  if shouldStreamAudioToGemini && sourceNode s1 && processor s1 && audioContext s1
  then set_onaudioprocess true
         (emit (Console "Streaming Audio to Gemini (System or Fallback)") s1)
  else s1.

Definition onclose (s : app) : app :=
  stopLiveDisplay (emit (Console "Live session closed") s).

Definition onconnectionerror (s : app) : app :=
  stopLiveDisplay
    (set_recordingStatus (js "Connection Error")
       (emit (Console "Live session error:") s)).

(** The outer [catch] (lines 1370-1374). *)
Definition start_failed (s : app) : app :=
  set_recordingStatus (js "Error starting session")
    (set_isRecording false (emit (Console "Error starting live session:") s)).

(** The [catch] of the display capture (lines 1176-1190). *)
Definition capture_failed (err : error) (s : app) : app :=
  let s1 := set_isRecording false (emit (Console "System audio denied") s) in
  let s2 :=
    if Js.eqb (name err) (js "NotAllowedError")
       || Js.eqb (name err) (js "PermissionDeniedError")
    then set_recordingStatus (js "Selection cancelled.") s1
    else set_recordingStatus
           (if truthy (message err) then message err
            else js "System audio error.") s1 in
  set_timers (timers s2 ++ [(reset_status, 3000)]) s2.

(** Lines 1271-1368.  [createMediaStreamSource] throws on a stream without
    audio track; the new processor has no [onaudioprocess] handler yet. *)
Definition open_session (env : environment) (instruction : jsstring)
    (s : app) : app :=
  let s1 := set_outputAudioContext true (set_audioContext true s) in
  let s2 := if output_suspended env then emit Resume s1 else s1 in
  let s3 := set_outputGainNode true s2 in
  match stream s3 with
  | Some tracks =>
      if existsb is_audio tracks then
        set_sessionPromise true
          (emit (Connect instruction)
             (set_onaudioprocess false
                (set_processor true (set_sourceNode true s3))))
      else start_failed s3
  | None => start_failed s3
  end.

(** [startLiveSession], lines 1092-1113: the flags and the cursor are
    reset, the source is read off the unified selector, the panes are
    emptied. *)
Definition begin_session (env : environment) (s : app) : app :=
  let is_system := Js.eqb (unifiedSourceSelect env) (js "system") in
  set_translatedContent []
    (ensureInterimContainer
       (set_rawInterimSpan None
          (set_rawTranscription
             (mkContainer [] (placeholder_active (rawTranscription s)))
             (set_selectedSourceType (if is_system then system else mic)
                (set_nextStartTime (Fin 0)
                   (set_isWebSpeechActive false
                      (set_recordingStatus
                         (js "Initializing Live Session...")
                         (set_isRecording true s)))))))).

(** [startLiveSession], lines 1116-1269: the plan is computed, the stream
    is acquired and, for the microphone, the recogniser is set up. *)
Definition acquire (env : environment) (s0 : app) : app :=
  let sourceValue := unifiedSourceSelect env in
  let deviceId :=
    if Js.eqb sourceValue (js "system") then None
    else if negb (Js.eqb sourceValue (js "default")) && truthy sourceValue
         then Some sourceValue else None in
  let selectedInputLanguage := languageSelect env in
  let selectedOutputLanguage := translationSelect env in
  let text :=
    ModeResolver.outputLanguageText (translationOption env)
      selectedOutputLanguage in
  let translating :=
    ModeResolver.translation_mode selectedInputLanguage
      selectedOutputLanguage in
  let instruction :=
    ModeResolver.systemInstruction (selectedSourceType s0) translating text in
  let s1 := set_closure (mkCaptured translating text) s0 in
  match selectedSourceType s1 with
  | system =>
      match getDisplayMedia env with
      | inl err => capture_failed err (emit GetDisplayMedia s1)
      | inr tracks =>
          let s2 := set_stream (Some tracks) (emit GetDisplayMedia s1) in
          if (List.length (filter is_audio tracks) =? 0)%nat then
            capture_failed (mkError (js "Error") no_audio_track_message)
              (set_stream None (stop_tracks tracks s2))
          else open_session env instruction s2
      end
  | mic =>
      match getUserMedia env with
      | inl _ =>
          set_recordingStatus (js "Microphone permission denied.")
            (set_isRecording false
               (emit (Console "Microphone denied")
                  (emit (GetUserMedia deviceId) s1)))
      | inr tracks =>
          let s2 :=
            set_stream (Some tracks) (emit (GetUserMedia deviceId) s1) in
          let s3 :=
            if speechRecognition env then
              let s' := emit RecognitionStart (set_recognition true s2) in
              if recognition_start_throws env
              then set_isWebSpeechActive false
                     (emit (Console "Failed to start WebSpeech") s')
              else set_isWebSpeechActive true s'
            else s2 in
          open_session env instruction s3
      end
  end.

(** [startLiveSession] (lines 1089-1375). *)
Definition startLiveSession (env : environment) (s : app) : app :=
  if negb (api_key env) then start_failed s
  else acquire env (begin_session env s).

(** Delivery of a callback, as for the other class.  The part of the file
    that holds this class ends before its [stopLiveSession]; a click on
    the button is not delivered. *)
Definition handle (s : app) (e : event) : app :=
  match e with
  | Result i results => if recognition s then onresult i results s else s
  | RecognitionError code => if recognition s then onerror code s else s
  | RecognitionEnd => if recognition s then onend s else s
  | Timeout cb start_throws =>
      match take_timer cb (timers s) with
      | Some rest =>
          match cb with
          | restart_recognition => restart start_throws (set_timers rest s)
          | reset_status => reset (set_timers rest s)
          end
      | None => s
      end
  | AudioProcess inputData =>
      if onaudioprocess s then audioprocess inputData s else s
  | Open => if sessionPromise s then onopen s else s
  | Close => if sessionPromise s then onclose s else s
  | ConnectionError => if sessionPromise s then onconnectionerror s else s
  | Translated _ => s
  | StopClicked => s
  end.

Definition run (s : app) (events : list event) : app :=
  fold_left handle events s.

End GeminiLiveApp.

From Stdlib Require Import DecimalString.

(** ** Page helpers of [VoiceNotesApp]: timer, theme, device list, escaping *)
Module Ui.

(** [String(n)] for an integer. *)
Definition String_of_Z (n : Z) : jsstring :=
  js (NilZero.string_of_int (Z.to_int n)).

(** [s.padStart(2, '0')]. *)
Definition padStart2 (s : jsstring) : jsstring :=
  match s with
  | [] => [48%N; 48%N]
  | [c] => [48%N; c]
  | _ => s
  end.

(** The three numbers of [updateLiveTimer] (lines 377-380): [Math.floor] of
    a quotient of integers is the floor division, [%] keeps the sign of the
    dividend. *)
Definition timer_fields (elapsedMs : Z) : Z * Z * Z :=
  let totalSeconds := elapsedMs / 1000 in
  let minutes := totalSeconds / 60 in
  let seconds := Z.rem totalSeconds 60 in
  let hundredths := Z.rem elapsedMs 1000 / 10 in
  (minutes, seconds, hundredths).

(** The text written by [updateLiveTimer] (line 382). *)
Definition timer_text (elapsedMs : Z) : jsstring :=
  let '(minutes, seconds, hundredths) := timer_fields elapsedMs in
  padStart2 (String_of_Z minutes) ++ js ":"
  ++ padStart2 (String_of_Z seconds) ++ js "."
  ++ padStart2 (String_of_Z hundredths).

(** The two decimal digits of a number below one hundred. *)
Definition two_digits (n : Z) : jsstring :=
  [Z.to_N (48 + n / 10); Z.to_N (48 + n mod 10)].

(** [updateLiveTimer] (lines 372-383): [display] tells whether the timer
    element exists, [textContent] is its text. *)
Definition updateLiveTimer (isRecording display : bool)
    (now recordingStartTime : Z) (textContent : jsstring) : jsstring :=
  if negb isRecording || negb display then textContent
  else timer_text (now - recordingStartTime).

(** What the theme methods read and write: the class [light-mode] of the
    body, the item [theme] of the local storage, and the two icon classes
    of the toggle. *)
Record theme : Type := mkTheme {
  light_mode : bool;
  saved : option jsstring;
  fa_sun : bool;
  fa_moon : bool
}.

(** [initTheme] (lines 258-269). *)
Definition initTheme (t : theme) : theme :=
  match saved t with
  | Some v =>
      if Js.eqb v (js "light") then mkTheme true (saved t) false true
      else mkTheme false (saved t) true false
  | None => mkTheme false (saved t) true false
  end.

(** [toggleTheme] (lines 271-282). *)
Definition toggleTheme (t : theme) : theme :=
  if negb (light_mode t) then mkTheme true (Some (js "light")) false true
  else mkTheme false (Some (js "dark")) true false.

Inductive device_kind : Type := audioinput | audiooutput | videoinput.

(** A [MediaDeviceInfo]. *)
Record device : Type := mkDevice {
  device_kind_of : device_kind;
  deviceId : jsstring;
  label : jsstring
}.

(** An [option] element and the [select] that holds the microphones.  The
    select shows one line: as soon as it has options one of them is
    selected. *)
Record option_element : Type := mkOption {
  value : jsstring;
  text : jsstring
}.

Record select : Type := mkSelect {
  options : list option_element;
  selectedIndex : option nat
}.

(** [select.value]. *)
Definition select_value (sel : select) : jsstring :=
  match selectedIndex sel with
  | Some i =>
      match nth_error (options sel) i with
      | Some o => value o
      | None => []
      end
  | None => []
  end.

(** [select.add(option)]: when nothing is selected the first option of the
    list becomes the selected one. *)
Definition add (o : option_element) (sel : select) : select :=
  mkSelect (options sel ++ [o])
    (match selectedIndex sel with
     | Some i => Some i
     | None => Some O
     end).

Fixpoint index_of (v : jsstring) (l : list option_element) : option nat :=
  match l with
  | [] => None
  | o :: rest =>
      if Js.eqb (value o) v then Some O
      else match index_of v rest with
           | Some i => Some (S i)
           | None => None
           end
  end.

(** [select.value = v]: the first option of that value gets selected. *)
Definition set_value (v : jsstring) (sel : select) : select :=
  mkSelect (options sel) (index_of v (options sel)).

Definition is_audioinput (d : device) : bool :=
  match device_kind_of d with audioinput => true | _ => false end.

Definition default_microphone : option_element :=
  mkOption (js "default") (js "Default Microphone").

(** The option made for a device (lines 203-207). *)
Definition option_of_device (d : device) (sel : select) : option_element :=
  mkOption (deviceId d)
    (if truthy (label d) then label d
     else js "Microphone "
          ++ String_of_Z (Z.of_nat (List.length (options sel)) + 1)).

(** [populateAudioDevices] (lines 183-228).  [enumerated] is the answer of
    [enumerateDevices], [None] when it rejects. *)
Definition populateAudioDevices (enumerated : option (list device))
    (sel : select) : select :=
  match enumerated with
  | Some devices =>
      let audioInputs := filter is_audioinput devices in
      let currentSelection := select_value sel in
      let cleared := mkSelect [] None in
      let filled :=
        if (List.length audioInputs =? 0)%nat then add default_microphone cleared
        else fold_left (fun acc d => add (option_of_device d acc) acc)
               audioInputs cleared in
      let hasCurrent :=
        existsb (fun o => Js.eqb (value o) currentSelection) (options filled) in
      if hasCurrent then set_value currentSelection filled else filled
  | None =>
      if (List.length (options sel) =? 0)%nat then add default_microphone sel
      else sel
  end.

(** A select is well formed when its selected index points at one of its
    options, or when it has no option and nothing is selected. *)
Definition well_formed (sel : select) : bool :=
  match selectedIndex sel with
  | Some i => (i <? List.length (options sel))%nat
  | None => (List.length (options sel) =? 0)%nat
  end.

(** The option of the [k]-th audio input, counted from 0. *)
Definition listed (kd : nat * device) : option_element :=
  mkOption (deviceId (snd kd))
    (if truthy (label (snd kd)) then label (snd kd)
     else js "Microphone " ++ String_of_Z (Z.of_nat (fst kd) + 1)).

(** [text.replace(/c/g, by)]. *)
Definition replace_all (c : N) (by_text : jsstring) (s : jsstring) : jsstring :=
  flat_map (fun x => if (x =? c)%N then by_text else [x]) s.

(** [escapeHtml] (lines 568-575); the double quote is code unit 34. *)
Definition escapeHtml (s : jsstring) : jsstring :=
  replace_all 39 (js "&#039;")
    (replace_all 34 (js "&quot;")
       (replace_all 62 (js "&gt;")
          (replace_all 60 (js "&lt;")
             (replace_all 38 (js "&amp;") s)))).

(** The entity of one code unit, when it has one. *)
Definition escape_unit (x : N) : jsstring :=
  if (x =? 38)%N then js "&amp;"
  else if (x =? 60)%N then js "&lt;"
  else if (x =? 62)%N then js "&gt;"
  else if (x =? 34)%N then js "&quot;"
  else if (x =? 39)%N then js "&#039;"
  else [x].

Definition needs_escape (x : N) : bool :=
  ((x =? 38) || (x =? 60) || (x =? 62) || (x =? 34) || (x =? 39))%N.

End Ui.

(** ** Inbound messages of the live session ([VoiceNotesApp]) *)
Module Live.

(** A part of a model turn: [inlineData?.data] and [text]. *)
Record part : Type := mkPart {
  inlineData : option jsstring;
  part_text : option jsstring
}.

(** What [handleLiveMessage] reads of a [LiveServerMessage]:
    [serverContent?.modelTurn?.parts] and the texts of the two
    transcriptions. *)
Record message : Type := mkMessage {
  parts : option (list part);
  inputTranscription : option jsstring;
  outputTranscription : option jsstring
}.

(** Truthiness of an optional string. *)
Definition present (o : option jsstring) : bool :=
  match o with Some t => truthy t | None => false end.

(** [if (x) this.f(x)] on an optional string. *)
Definition when_present (o : option jsstring) (f : jsstring -> app -> app)
    (s : app) : app :=
  match o with
  | Some t => if truthy t then f t s else s
  | None => s
  end.

(** [parts?.[0]?.inlineData?.data]. *)
Definition audioData (m : message) : option jsstring :=
  match parts m with
  | Some (p :: _) => inlineData p
  | _ => None
  end.

(** [parts?.find(p => p.text)]: the text of the first part that has one. *)
Definition textPart (m : message) : option jsstring :=
  match parts m with
  | Some l =>
      match find (fun p => present (part_text p)) l with
      | Some p => part_text p
      | None => None
      end
  | None => None
  end.

(** The scheduler fields of the application object. *)
Definition scheduler_of (s : app) : Playback.scheduler :=
  Playback.mkScheduler (outputAudioContext s) (outputGainNode s)
    (nextStartTime s).

(** The text a message adds to the translated pane when the source is the
    system audio: the output transcription, else the first text part. *)
Definition translated_text (m : message) : option jsstring :=
  if present (outputTranscription m) then outputTranscription m
  else if present (textPart m) then textPart m else None.

(** The segment a message adds to the raw pane when the source is the
    system audio: the input transcription, unless it is blank. *)
Definition heard (m : message) : list jsstring :=
  match inputTranscription m with
  | Some t => if blank t then [] else [t ++ js " "]
  | None => []
  end.

Definition shown (o : option jsstring) : list tnode :=
  match o with
  | Some t => [Rendered t; TextNode (js " ")]
  | None => []
  end.

Section WithDecoder.

(** The base64 decoder of the browser: the bytes, or [None] when it
    throws. *)
Variable atob : jsstring -> option (list Z).

(** [playAudioChunk] (lines 900-931) on the application object, with the
    call [source.start] it makes.  A failure inside the [try] is logged. *)
Definition playAudioChunk (currentTime : number) (base64Audio : jsstring)
    (s : app)
    : app * option Playback.scheduled :=
  if negb (outputAudioContext s) || negb (outputGainNode s) then (s, None)
  else
    match atob base64Audio with
    | None => (emit (Console "Error playing audio chunk") s, None)
    | Some bytes =>
        match Playback.decodeAudioData bytes with
        | None => (emit (Console "Error playing audio chunk") s, None)
        | Some audioBuffer =>
            let next := Playback.later (nextStartTime s) currentTime in
            (set_nextStartTime
               (Double.add next (Playback.duration64 audioBuffer)) s,
             Some
               (Playback.mkScheduled next (Playback.duration64 audioBuffer)))
        end
    end.

(** The first part of [handleLiveMessage] (lines 864-871): the audio of
    the first part of the model turn, with the highlight that precedes it
    when the system audio is translated.  [currentTime] is the clock of the
    output context when the chunk is scheduled. *)
Definition audio_stage (currentTime : number) (m : message) (s : app)
    : app * option Playback.scheduled :=
  match audioData m with
  | Some data =>
      if truthy data then
        playAudioChunk currentTime data
          (if isTranslationMode (closure s)
              && source_eqb (selectedSourceType s) system
           then highlightActiveSegment s else s)
      else (s, None)
  | None => (s, None)
  end.

(** The second part of [handleLiveMessage] (lines 873-897): the texts, read
    only when the source is the system audio. *)
Definition text_stage (m : message) (s1 : app) : app :=
  match selectedSourceType s1 with
  | system =>
      let s2 := when_present (inputTranscription m) appendRawSegment s1 in
      let s3 := when_present (outputTranscription m) appendTranslatedText s2 in
      if negb (present (outputTranscription m)) then
        when_present (textPart m) appendTranslatedText s3
      else s3
  | mic => s1
  end.

(** [handleLiveMessage] (lines 862-898).  Its [await] resolves before any
    other callback runs, so the method is one step. *)
Definition handleLiveMessage (currentTime : number) (m : message) (s : app)
    : app * option Playback.scheduled :=
  let '(s1, out) := audio_stage currentTime m s in
  (text_stage m s1, out).

(** The messages of a session in arrival order, each with the clock at its
    arrival; the calls [source.start] made, in order. *)
Fixpoint receive (messages : list (number * message)) (s : app)
    : app * list Playback.scheduled :=
  match messages with
  | [] => (s, [])
  | (now, m) :: rest =>
      let '(s1, out) := handleLiveMessage now m s in
      let '(s2, calls) := receive rest s1 in
      (s2, match out with Some c => c :: calls | None => calls end)
  end.

(** The audio chunks of a run of messages, as the scheduler gets them. *)
Definition audio_chunks (messages : list (number * message))
    : list (number * option (list Z)) :=
  flat_map
    (fun nm =>
       match audioData (snd nm) with
       | Some data => if truthy data then [(fst nm, atob data)] else []
       | None => []
       end) messages.

End WithDecoder.

End Live.

(** ** Observations used by the further properties *)
Module Observe.

(** The chunk [processor.onaudioprocess] sends for a frame. *)
Definition chunk_of_frame (inputData : list number) : effect :=
  SendRealtimeInput (js "audio/pcm;rate=16000")
    (btoa (Pcm.Uint8_view (Pcm.pcmData inputData))).


(** The highlight flags of the finalized segments, in document order. *)
Fixpoint actives (l : list node) : list bool :=
  match l with
  | [] => []
  | Segment _ a :: rest => a :: actives rest
  | Interim _ _ :: rest => actives rest
  end.


(** The fields of the application that the transcript operations leave
    alone besides [control] and [wiring]. *)
Definition playback (s : app) : number * list tnode * bool :=
  (nextStartTime s, translatedContent s, translated_placeholder s).

(** What the transcript operations leave alone on the way of the inbound
    audio: the scheduler fields, the source, the captured constants and the
    log. *)
Definition audio_path (s : app) :=
  (Live.scheduler_of s, selectedSourceType s, closure s, effects s).

(** The status line [GeminiLiveApp] shows for a failed display capture. *)
Definition capture_status (err : error) : jsstring :=
  if Js.eqb (name err) (js "NotAllowedError")
     || Js.eqb (name err) (js "PermissionDeniedError")
  then js "Selection cancelled."
  else if truthy (message err) then message err else js "System audio error.".

End Observe.

Import Observe.

(** ** The page: every task that runs on the application object

  JavaScript runs one task at a time, to its end.  An [async] method runs
  up to its first [await] in the task that calls it; what follows an
  [await] is a task of its own that the browser runs later, and other
  tasks run in between.  Nothing is assumed of the order in which the
  browser runs the tasks: a run is any list of tasks.  A continuation
  carries the local variables of its invocation, a callback the constants
  its closure captured, and a task carries the answer of the browser that
  it reads.

  [VoiceNotesApp.startLiveSession] and [VoiceNotesApp.stopLiveSession] are
  these methods when nothing else runs during their [await]s. *)
Module Page.

Import VoiceNotesApp.

(** The local constants of an invocation of [startLiveSession] (lines
    630-668): what the callbacks capture, the system instruction for the
    source read at line 643, and the device asked for. *)
Definition captured_of (env : environment) : captured :=
  mkCaptured
    (ModeResolver.translation_mode (languageSelect env) (translationSelect env))
    (language_text env).

Definition instruction_of (src : source_type) (env : environment) : jsstring :=
  ModeResolver.systemInstruction src
    (ModeResolver.translation_mode (languageSelect env) (translationSelect env))
    (language_text env).

Definition device_of (env : environment) : option jsstring :=
  if truthy (deviceSelect env)
     && negb (Js.eqb (deviceSelect env) (js "default"))
  then Some (deviceSelect env) else None.

(** [startLiveSession] up to its first [await] (lines 617-675 for the
    system audio, 617-699 for the microphone): the reset, then the request
    for the stream. *)
Definition start_request (env : environment) (s : app) : app :=
  let s0 := begin_session s in
  match selectedSourceType s0 with
  | system => emit GetDisplayMedia s0
  | mic => emit (GetUserMedia (device_of env)) s0
  end.

(** [startLiveSession] from line 778 on, in the state it finds: the
    [TypeError] of a method called on [null] and the errors of
    [createMediaStreamSource] go to the outer [catch]. *)
Definition open_tail (instruction : jsstring) (s : app) : app :=
  if negb (outputAudioContext s) then start_failed s
  else
    let s3 := set_outputGainNode true s in
    if negb (audioContext s3) then start_failed s3
    else
      match stream s3 with
      | Some tracks =>
          if existsb is_audio tracks then
            set_sessionPromise true
              (emit (Connect instruction)
                 (set_onaudioprocess false
                    (set_processor true (set_sourceNode true s3))))
          else start_failed s3
      | None => start_failed s3
      end.

(** Lines 761-777: the two contexts; the method is suspended at
    [await this.outputAudioContext.resume()] when the output context is
    suspended.  The boolean tells whether it is. *)
Definition open_head (src : source_type) (env : environment) (s : app)
    : app * bool :=
  let s1 := set_outputAudioContext true (set_audioContext true s) in
  if output_suspended env then (emit Resume s1, true)
  else (open_tail (instruction_of src env) s1, false).

(** [startLiveSession] after its first [await] (lines 672-759): [src] is
    the branch the method is in, [env] holds the answer to the request. *)
Definition media_settled (src : source_type) (env : environment) (s : app)
    : app * bool :=
  let s1 := set_closure (captured_of env) s in
  match src with
  | system =>
      match getDisplayMedia env with
      | inl _ =>
          (set_recordingStatus (js "System audio permission denied.")
             (set_isRecording false (emit (Console "System audio denied") s1)),
           false)
      | inr tracks => open_head src env (set_stream (Some tracks) s1)
      end
  | mic =>
      match getUserMedia env with
      | inl _ => (start_failed s1, false)
      | inr tracks =>
          let s2 := set_stream (Some tracks) s1 in
          let s3 :=
            if speechRecognition env then
              let s' :=
                emit RecognitionStart
                  (set_recognition true (set_isWebSpeechActive true s2)) in
              if recognition_start_throws env
              then set_isWebSpeechActive false
                     (emit (Console "Failed to start WebSpeech") s')
              else s'
            else s2 in
          open_head src env s3
      end
  end.

(** [startLiveSession] after [await this.outputAudioContext.resume()];
    a rejection goes to the outer [catch]. *)
Definition output_resumed (ok : bool) (src : source_type) (env : environment)
    (s : app) : app :=
  if ok then open_tail (instruction_of src env) s else start_failed s.

(** Where [stopLiveSession] is. *)
Inductive stop_stage : Type :=
| awaiting_input_close
| awaiting_output_close
| stopped.

(** [stopLiveSession], lines 948-977: everything before the contexts. *)
Definition stop_head (s : app) : app :=
  let s1 := set_recordingStatus (js "Stopping...") (set_isRecording false s) in
  let s2 :=
    if recognition s1
    then emit RecognitionStop (set_isWebSpeechActive false s1)
    else s1 in
  let s3 :=
    if processor s2
    then set_processor false (set_onaudioprocess false s2)
    else s2 in
  let s4 := if sourceNode s3 then set_sourceNode false s3 else s3 in
  match stream s4 with
  | Some tracks => set_stream None (stop_tracks tracks s4)
  | None => s4
  end.

(** Lines 990-991. *)
Definition stop_finish (s : app) : app :=
  set_recordingStatus (js "Session Ended") (set_is_live false s).

(** Lines 984-991: the method is suspended at
    [await this.outputAudioContext.close()] when there is an output
    context. *)
Definition stop_output (s : app) : app * stop_stage :=
  if outputAudioContext s then (s, awaiting_output_close)
  else (stop_finish s, stopped).

(** [stopLiveSession] up to its first [await]; [closed] is the answer to
    [this.audioContext.state === 'closed']. *)
Definition stop_request (closed : bool) (s : app) : app * stop_stage :=
  let s5 := stop_head s in
  if audioContext s5 && negb closed then (s5, awaiting_input_close)
  else stop_output s5.

(** After [await this.audioContext.close()] and after
    [await this.outputAudioContext.close()]; a rejection ends the
    method. *)
Definition input_closed (ok : bool) (s : app) : app * stop_stage :=
  if ok then stop_output (set_audioContext false s) else (s, stopped).

Definition output_closed (ok : bool) (s : app) : app :=
  if ok then stop_finish (set_outputAudioContext false s) else s.



(** [createNewNote] (lines 996-1012): the panes are emptied as at the start
    of a session. *)
Definition createNewNote (s : app) : app := reset_panes s.

(** The application object with what the fields of the model cannot tell:
    whether a processor that still has its audio handler was replaced in
    [this.processor] by a later [startLiveSession]. *)
Record page : Type := mkPage {
  app_of : app;
  orphaned : bool
}.

Section WithDecoder.

Variable atob : jsstring -> option (list Z).

Inductive task : Type :=
| RecordClicked (env : environment) (closed : bool)
| SourceCardClicked (type : source_type)
| NewClicked
| MediaSettled (src : source_type) (env : environment)
| OutputResumed (ok : bool) (src : source_type) (env : environment)
| InputClosed (ok : bool)
| OutputClosed (ok : bool)
| RecogniserResult (c : captured) (resultIndex : nat)
    (results : list recognition_result)
| RecogniserError (code : jsstring)
| RecogniserEnd
| TimerFired (cb : callback) (start_throws : bool)
| AudioFrame (inputData : list number)
| ConnectionOpened (c : captured)
| ConnectionMessage (c : captured) (currentTime : number) (m : Live.message)
| ConnectionClosed
| ConnectionFailed
| TranslationSettled (outcome : generate_outcome).

(** What a task does to the application object.  A click on the record
    button is [toggleRecording] (lines 284-290); a click on a source card
    assigns [selectedSourceType] (lines 156-160), whether a session is
    recording or not; a callback that captured constants runs with
    them. *)
Definition perform (orphan : bool) (s : app) (t : task) : app :=
  match t with
  | RecordClicked env closed =>
      if negb (isRecording s) then start_request env s
      else fst (stop_request closed s)
  | SourceCardClicked type => set_selectedSourceType type s
  | NewClicked => createNewNote s
  | MediaSettled src env => fst (media_settled src env s)
  | OutputResumed ok src env => output_resumed ok src env s
  | InputClosed ok => fst (input_closed ok s)
  | OutputClosed ok => output_closed ok s
  | RecogniserResult c i results => handle (set_closure c s) (Result i results)
  | RecogniserError code => handle s (RecognitionError code)
  | RecogniserEnd => handle s RecognitionEnd
  | TimerFired cb start_throws => handle s (Timeout cb start_throws)
  | AudioFrame inputData =>
      if orphan then audioprocess inputData s
      else handle s (AudioProcess inputData)
  | ConnectionOpened c => handle (set_closure c s) Open
  | ConnectionMessage c currentTime m =>
      if sessionPromise s
      then fst (Live.handleLiveMessage atob currentTime m (set_closure c s))
      else s
  | ConnectionClosed => handle s Close
  | ConnectionFailed => handle s ConnectionError
  | TranslationSettled outcome => handle s (Translated outcome)
  end.

(** A continuation of [startLiveSession] that assigns [this.processor]
    leaves the processor it replaces with its handler. *)
Definition deliver (p : page) (t : task) : page :=
  let s := app_of p in
  let s' := perform (orphaned p) s t in
  mkPage s'
    (match t with
     | MediaSettled _ _ | OutputResumed _ _ _ =>
         orphaned p || onaudioprocess s && negb (onaudioprocess s')
     | _ => orphaned p
     end).

Definition run (p : page) (tasks : list task) : page :=
  fold_left deliver tasks p.



(** The callbacks of the recogniser's end, of its restart timer and of the
    audio processor. *)
Definition end_or_audio (t : task) : bool :=
  match t with
  | RecogniserEnd | TimerFired _ _ | AudioFrame _ => true
  | _ => false
  end.

(** The clicks, and the continuations of the two methods they call. *)
Definition user_or_continuation (t : task) : bool :=
  match t with
  | RecordClicked _ _ | SourceCardClicked _ | NewClicked | MediaSettled _ _
  | OutputResumed _ _ _ | InputClosed _ | OutputClosed _ => true
  | _ => false
  end.




End WithDecoder.

End Page.

(** * Theorems *)

(** Splits every test and pattern match of the goal. *)
Ltac split_cases :=
  repeat match goal with
         | |- context [match ?x with _ => _ end] => destruct x eqn:?
         end.

(** Reads the fields of the application through the assignments made
    before. *)
Ltac fields :=
  cbn [isRecording recordingStatus isWebSpeechActive nextStartTime
       selectedSourceType rawTranscription rawInterimSpan translatedContent
       translated_placeholder stream recognition audioContext
       outputAudioContext outputGainNode sourceNode processor
       onaudioprocess sessionPromise is_live closure timers effects next_id
       set_isRecording set_recordingStatus set_isWebSpeechActive
       set_nextStartTime set_selectedSourceType set_rawTranscription
       set_rawInterimSpan set_translatedContent set_translated_placeholder
       set_stream set_recognition set_audioContext set_outputAudioContext
       set_outputGainNode set_sourceNode set_processor set_onaudioprocess
       set_sessionPromise set_is_live set_closure set_timers set_effects
       set_next_id emit].

Ltac fields_in_all :=
  cbn [isRecording recordingStatus isWebSpeechActive nextStartTime
       selectedSourceType rawTranscription rawInterimSpan translatedContent
       translated_placeholder stream recognition audioContext
       outputAudioContext outputGainNode sourceNode processor
       onaudioprocess sessionPromise is_live closure timers effects next_id
       set_isRecording set_recordingStatus set_isWebSpeechActive
       set_nextStartTime set_selectedSourceType set_rawTranscription
       set_rawInterimSpan set_translatedContent set_translated_placeholder
       set_stream set_recognition set_audioContext set_outputAudioContext
       set_outputGainNode set_sourceNode set_processor set_onaudioprocess
       set_sessionPromise set_is_live set_closure set_timers set_effects
       set_next_id emit] in *.

Ltac andb_hyps :=
  repeat match goal with
         | H : _ && _ = true |- _ => apply andb_prop in H; destruct H
         end.

(** ** PCM conversion *)
Section PcmFacts.

Local Open Scope Z_scope.

Lemma wrap16_small (z : Z) : -32768 <= z <= 32767 -> wrap16 z = z.
Proof.
  intros H. unfold wrap16.
  rewrite Z.mod_small by lia. lia.
Qed.

(** Truncation is the floor of a non-negative rational and the ceiling of
    a negative one. *)
Lemma truncate_floor_ceiling (q : Q) :
  truncate q = if Qle_bool 0 q then Qfloor q else Qceiling q.
Proof.
  destruct q as [n d]. unfold truncate, Qle_bool, Qceiling, Qfloor, Qopp.
  cbn [Qnum Qden]. rewrite Z.mul_1_r. cbn [Z.mul].
  destruct (Z.leb_spec 0 n) as [Hn | Hn].
  - apply Z.quot_div_nonneg; lia.
  - replace n with (- - n) at 1 by lia.
    rewrite Z.quot_opp_l by lia.
    rewrite Z.quot_div_nonneg by lia. reflexivity.
Qed.

Lemma truncate_comp (p q : Q) : (p == q)%Q -> truncate p = truncate q.
Proof.
  intros E. rewrite !truncate_floor_ceiling.
  rewrite (Qleb_comp 0%Q 0%Q (Qeq_refl 0) p q E).
  destruct (Qle_bool 0 q);
    [apply Qfloor_comp | apply Qceiling_comp]; exact E.
Qed.

(** Truncation never moves a rational away from zero by a unit or more. *)
Lemma truncate_bound (q : Q) (b : Z) :
  (- inject_Z b <= q <= inject_Z b)%Q -> - b <= truncate q <= b.
Proof.
  intros [Hlo Hhi]. rewrite truncate_floor_ceiling.
  destruct (Qle_bool 0 q) eqn:E.
  - apply Qle_bool_iff in E.
    split.
    + assert (0 <= Qfloor q).
      { apply Qfloor_resp_le in E. exact E. }
      assert (0 <= b).
      { rewrite Zle_Qle. exact (Qle_trans _ _ _ E Hhi). }
      lia.
    + apply Qfloor_resp_le in Hhi. now rewrite Qfloor_Z in Hhi.
  - assert (Hneg : (q < 0)%Q).
    { apply Qnot_le_lt. intros C. apply Qle_bool_iff in C. congruence. }
    split.
    + apply Qceiling_resp_le in Hlo.
      rewrite <- inject_Z_opp, Qceiling_Z in Hlo. exact Hlo.
    + assert (Qceiling q <= 0).
      { apply Qlt_le_weak in Hneg. apply Qceiling_resp_le in Hneg.
        exact Hneg. }
      assert (0 <= b).
      { apply Z.opp_le_mono. rewrite Zle_Qle, inject_Z_opp.
        apply Qle_trans with (y := q); [exact Hlo |].
        apply Qlt_le_weak. exact Hneg. }
      lia.
Qed.

(** The clamp of a finite sample is the finite value
    [max(-1, min(1, q))]. *)
Lemma clamp_finite (q : Q) :
  exists c, Pcm.clamp (Fin q) = Fin c
            /\ (c == Qmax (-1) (Qmin 1 q))%Q /\ (-1 <= c <= 1)%Q.
Proof.
  unfold Pcm.clamp, math_min.
  destruct (Qle_bool 1 q) eqn:E1.
  - apply Qle_bool_iff in E1. unfold math_max.
    replace (Qle_bool (-1) 1) with true by reflexivity.
    exists 1%Q. split; [reflexivity |]. split.
    + rewrite (Q.min_l 1 q E1). symmetry. apply Q.max_r. lra.
    + lra.
  - assert (H1 : (q < 1)%Q).
    { apply Qnot_le_lt. intros C. apply Qle_bool_iff in C. congruence. }
    unfold math_max. destruct (Qle_bool (-1) q) eqn:E2.
    + apply Qle_bool_iff in E2. exists q. split; [reflexivity |]. split.
      * rewrite (Q.min_r 1 q) by lra. symmetry. apply Q.max_r. exact E2.
      * lra.
    + assert (H2 : (q < -1)%Q).
      { apply Qnot_le_lt. intros C. apply Qle_bool_iff in C. congruence. }
      exists (-1)%Q. split; [reflexivity |]. split.
      * rewrite (Q.min_r 1 q) by lra. symmetry. apply Q.max_l. lra.
      * lra.
Qed.

Lemma pcm_of_sample_range (x : number) :
  -32767 <= Pcm.pcm_of_sample x <= 32767.
Proof.
  destruct x as [| [|] | q];
    [vm_compute; split; discriminate .. |].
  destruct (clamp_finite q) as (c & Ec & _ & Hc).
  unfold Pcm.pcm_of_sample. rewrite Ec. cbn [mul ToInt16].
  assert (B : -32767 <= truncate (c * 32767) <= 32767).
  { apply (truncate_bound (c * 32767) 32767).
    change (inject_Z 32767) with 32767%Q. lra. }
  rewrite wrap16_small by lia. exact B.
Qed.

(** A 16-bit sample survives the byte view of the capture side read back
    by the sample view of the playback side. *)
Lemma Int16_view_Uint8_view (samples : list Z) :
  Forall (fun v => -32768 <= v <= 32767) samples ->
  Pcm.Int16_view (Pcm.Uint8_view samples) = Some samples.
Proof.
  induction 1 as [| v l Hv _ IH]; [reflexivity |].
  cbn [Pcm.Uint8_view flat_map Pcm.bytes_of_int16 List.app Pcm.Int16_view].
  fold (Pcm.Uint8_view l). rewrite IH. do 2 f_equal.
  set (u := v mod 65536).
  replace (u mod 256 + 256 * (u / 256)) with u
    by (rewrite Z.add_comm; apply Z.div_mod; lia).
  subst u. unfold wrap16.
  destruct (Z_lt_le_dec v 0).
  - replace (v mod 65536) with (v + 65536).
    + replace (v + 65536 + 32768) with (v + 32768 + 1 * 65536) by lia.
      rewrite Z.mod_add, Z.mod_small by lia. lia.
    + apply Z.mod_unique with (q := -1); lia.
  - rewrite (Z.mod_small v) by lia. rewrite Z.mod_small by lia. lia.
Qed.

Lemma Uint8_view_length (samples : list Z) :
  List.length (Pcm.Uint8_view samples) = (2 * List.length samples)%nat.
Proof.
  induction samples as [| v l IH]; [reflexivity |].
  cbn [Pcm.Uint8_view flat_map Pcm.bytes_of_int16 List.app List.length].
  fold (Pcm.Uint8_view l). rewrite IH. lia.
Qed.

(** Re-encoding a decoded sample moves it one step toward zero. *)
Lemma reencode_decode (v : Z) :
  -32768 <= v <= 32767 ->
  Pcm.pcm_of_sample (Pcm.decode_sample v) = v - Z.sgn v.
Proof.
  intros Hv.
  unfold Pcm.pcm_of_sample, Pcm.decode_sample, div_const, Pcm.clamp, math_min.
  assert (E1 : Qle_bool 1 (inject_Z v / 32768) = false).
  { unfold Qle_bool. cbn. apply Z.leb_gt. lia. }
  rewrite E1. unfold math_max.
  assert (E2 : Qle_bool (-1) (inject_Z v / 32768) = true).
  { unfold Qle_bool. cbn. apply Z.leb_le. lia. }
  rewrite E2. cbn [mul ToInt16].
  assert (T : truncate (inject_Z v / 32768 * 32767) = v - Z.sgn v).
  { unfold truncate. cbn. rewrite !Z.mul_1_r.
    destruct (Z.lt_trichotomy v 0) as [Hn | [Hz | Hp]].
    - rewrite (Z.sgn_neg v Hn).
      replace (v * 32767) with (- (- v * 32767)) by lia.
      rewrite Z.quot_opp_l by lia.
      rewrite Z.quot_div_nonneg by lia.
      assert (- v * 32767 / 32768 = - v - 1); [| lia].
      symmetry. apply Z.div_unique with (r := 32768 + v); lia.
    - subst v. reflexivity.
    - rewrite (Z.sgn_pos v Hp).
      rewrite Z.quot_div_nonneg by lia.
      symmetry. apply Z.div_unique with (r := 32768 - v); lia. }
  rewrite T. apply wrap16_small. lia.
Qed.

End PcmFacts.

Section PcmClaims.

Local Open Scope Z_scope.

(** C4.  For every PCM16 sample [v] in [-32768, 32767], decoding it as the
    playback side does (division by 32768) and re-encoding the result with
    the quantiser of the capture side gives a sample within one
    quantisation step of [v]: at most 1 apart as 16-bit integers, at most
    1/32768 apart once normalised. *)
Theorem decode_reencode_within_one_step (v : Z) :
  -32768 <= v <= 32767 ->
  let r := Pcm.pcm_of_sample (Pcm.decode_sample v) in
  Z.abs (r - v) <= 1
  /\ exists a b,
       Pcm.decode_sample v = Fin a /\ Pcm.decode_sample r = Fin b
       /\ (Qabs (b - a) <= 1 # 32768)%Q.
Proof.
  intros Hv r. subst r. rewrite (reencode_decode v Hv).
  split; [lia |].
  exists (inject_Z v / 32768)%Q, (inject_Z (v - Z.sgn v) / 32768)%Q.
  split; [reflexivity |]. split; [reflexivity |].
  apply Qabs_Qle_condition.
  unfold Zminus. rewrite inject_Z_plus, inject_Z_opp.
  assert (S : (-1 <= inject_Z (Z.sgn v) <= 1)%Q).
  { change (-1)%Q with (inject_Z (-1)). change 1%Q with (inject_Z 1).
    rewrite <- !Zle_Qle. lia. }
  set (x := inject_Z v) in *. set (s := inject_Z (Z.sgn v)) in *.
  unfold Qdiv. change (/ 32768)%Q with (1 # 32768)%Q.
  split; lra.
Qed.

Lemma decode_reencode_within_one_step_witness :
  Z.abs (Pcm.pcm_of_sample (Pcm.decode_sample (-32768)) - -32768) <= 1
  /\ exists a b,
       Pcm.decode_sample (-32768) = Fin a
       /\ Pcm.decode_sample (Pcm.pcm_of_sample (Pcm.decode_sample (-32768)))
          = Fin b
       /\ (Qabs (b - a) <= 1 # 32768)%Q.
Proof.
  apply (decode_reencode_within_one_step (-32768)). lia.
Defined.

(** C5, as the specification has it, fails on the sample 0.25: the product
    is 8191.75, which the store into the [Int16Array] truncates to 8191,
    while rounding gives 8192. *)
Lemma quantiser_does_not_round :
  Pcm.pcm_of_sample (Fin (1 # 4)) = 8191
  /\ Pcm.spec_quantise (Fin (1 # 4)) = 8192
  /\ Pcm.pcm_of_sample (Fin (1 # 4)) <> Pcm.spec_quantise (Fin (1 # 4)).
Proof.
  split; [reflexivity |]. split; [reflexivity |]. discriminate.
Qed.

(** C5, amended.  The capture pipeline converts every sample [x] to the
    16-bit integer obtained by truncating [clamp(x,-1,1) * 32767] toward
    zero (the floor of a non-negative product, the ceiling of a negative
    one); NaN gives 0 and the infinities give the two extremes.  The
    result lies in [-32767, 32767], and the byte view of a frame of such
    samples holds two bytes per sample from which the samples can be read
    back. *)
Theorem capture_quantiser_truncates (x : number) (frame : list number) :
  match x with
  | NaN => Pcm.pcm_of_sample x = 0
  | Inf negative => Pcm.pcm_of_sample x = if negative then -32767 else 32767
  | Fin q =>
      let y := (Qmax (-1) (Qmin 1 q) * 32767)%Q in
      Pcm.pcm_of_sample x = if Qle_bool 0 y then Qfloor y else Qceiling y
  end
  /\ -32767 <= Pcm.pcm_of_sample x <= 32767
  /\ List.length (Pcm.pcmData frame) = List.length frame
  /\ List.length (Pcm.Uint8_view (Pcm.pcmData frame))
     = (2 * List.length frame)%nat
  /\ Pcm.Int16_view (Pcm.Uint8_view (Pcm.pcmData frame))
     = Some (Pcm.pcmData frame).
Proof.
  split; [| split; [apply pcm_of_sample_range | split; [| split]]].
  - destruct x as [| [|] | q]; try reflexivity.
    intros y. destruct (clamp_finite q) as (c & Ec & Eq & Hc).
    unfold Pcm.pcm_of_sample. rewrite Ec. cbn [mul ToInt16].
    assert (B : -32767 <= truncate (c * 32767) <= 32767).
    { apply (truncate_bound (c * 32767) 32767).
      change (inject_Z 32767) with 32767%Q. lra. }
    rewrite wrap16_small by lia.
    rewrite <- truncate_floor_ceiling. apply truncate_comp.
    unfold y. rewrite Eq. reflexivity.
  - apply length_map.
  - rewrite Uint8_view_length. unfold Pcm.pcmData. now rewrite length_map.
  - apply Int16_view_Uint8_view. unfold Pcm.pcmData.
    apply Forall_forall. intros r Hr. apply in_map_iff in Hr.
    destruct Hr as (s & <- & _).
    pose proof (pcm_of_sample_range s). lia.
Qed.

End PcmClaims.
(** ** Double precision *)
Section DoubleFacts.

Import Double.
Local Open Scope Q_scope.




Lemma pow2_lt (a b : Z) : (a < b)%Z -> pow2 a < pow2 b.
Proof. intros H. apply Qpower_lt_compat_l; [exact H | reflexivity]. Qed.







(** The rounding on two values that are well known. *)
Lemma round_one_tenth :
  round (1 # 10) = Fin (3602879701896397 # 36028797018963968)
  /\ add (round (1 # 10)) (round (2 # 10))
     = Fin (1351079888211149 # 4503599627370496)
  /\ round (pow2 (-1075)) = Fin 0
  /\ round (pow2 1024 - pow2 970) = Inf false.
Proof. repeat split; vm_compute; reflexivity. Qed.




End DoubleFacts.

(** ** Playback scheduler *)
Section PlaybackFacts.

Import Playback.
Local Open Scope Q_scope.







Lemma add_durations_last (l : list entry) (e : entry) (start : number) :
  add_durations start (l ++ [e])
  = Double.add (add_durations start l) (bufferDuration (call e)).
Proof. unfold add_durations. now rewrite fold_left_app. Qed.




(** C1, as the specification has it, fails on the numbers of the code:
    the cursor is advanced by an addition in double precision.  Three
    chunks of 2, 1 and 2 samples arrive at clock 5, none of them late; the
    third one starts before the start of the first plus the two durations
    scheduled before it. *)
Lemma gapless_sum_is_rounded :
  let st := mkScheduler true true (Fin 0) in
  let chunks :=
    [(Fin 5, Some [0; 0; 0; 0]%Z); (Fin 5, Some [1; 0]%Z);
     (Fin 5, Some [255; 127; 0; 128]%Z)] in
  let log := fst (play_all st chunks) in
  let d1 := 6148914691236517 # 73786976294838206464 in
  let d2 := 6148914691236517 # 147573952589676412928 in
  let s2 := 5629593359205357 # 1125899906842624 in
  let s3 := 5629640271701475 # 1125899906842624 in
  Forall on_time (tl log)
  /\ map (fun e => (startAt (call e), bufferDuration (call e))) log
     = [(Fin 5, Fin d1); (Fin s2, Fin d2); (Fin s3, Fin d1)]
  /\ s3 < s2 + d2
  /\ s3 < 5 + d1 + d2
  /\ ~ s3 == 5 + (2 # 24000) + (1 # 24000).
Proof.
  cbv zeta. split; [repeat constructor |].
  split; [vm_compute; reflexivity |].
  split; [vm_compute; reflexivity |].
  split; [vm_compute; reflexivity |].
  vm_compute. discriminate.
Qed.



End PlaybackFacts.

(** ** Strings *)
Section JsFacts.

Lemma trimStart_blank (s : jsstring) : blank s = true -> trimStart s = [].
Proof.
  induction s as [| c rest IH]; [reflexivity |].
  cbn [blank forallb trimStart]. intros H. apply andb_prop in H as [Hc Hr].
  rewrite Hc. exact (IH Hr).
Qed.

Lemma trimStart_nil_blank (s : jsstring) : trimStart s = [] -> blank s = true.
Proof.
  induction s as [| c rest IH]; [reflexivity |].
  cbn [blank forallb trimStart].
  destruct (is_white_space c); [exact IH | discriminate].
Qed.

Lemma blank_app (s t : jsstring) : blank (s ++ t) = blank s && blank t.
Proof. apply forallb_app. Qed.

Lemma blank_rev (s : jsstring) : blank (rev s) = blank s.
Proof.
  induction s as [| c rest IH]; [reflexivity |].
  cbn [rev]. rewrite blank_app, IH. cbn [blank forallb].
  rewrite andb_true_r. apply andb_comm.
Qed.

(** What [trimStart] leaves is blank only when it is empty. *)
Lemma trimStart_blank_nil (s : jsstring) :
  blank (trimStart s) = true -> trimStart s = [].
Proof.
  induction s as [| c rest IH]; [reflexivity |].
  cbn [trimStart]. destruct (is_white_space c) eqn:E; [exact IH |].
  cbn [blank forallb]. rewrite E. discriminate.
Qed.

(** [trim] gives the empty string exactly on the blank strings. *)
Lemma trim_nil_iff (s : jsstring) : trim s = [] <-> blank s = true.
Proof.
  unfold trim, trimEnd. split.
  - intros H. apply (f_equal (@rev N)) in H. rewrite rev_involutive in H.
    cbn [rev] in H. apply trimStart_nil_blank in H. rewrite blank_rev in H.
    apply trimStart_nil_blank. apply trimStart_blank_nil. exact H.
  - intros H. rewrite (trimStart_blank s H). reflexivity.
Qed.

Lemma truthy_false_iff (s : jsstring) : truthy s = false <-> s = [].
Proof. destruct s; split; intros; (reflexivity || discriminate). Qed.

(** The guard of [appendRawSegment] is the test for a blank text. *)
Lemma guard_blank (text : jsstring) :
  negb (truthy text) || negb (truthy (trim text)) = blank text.
Proof.
  destruct (blank text) eqn:B.
  - apply (proj2 (trim_nil_iff text)) in B. rewrite B. cbn.
    apply orb_true_r.
  - destruct text as [| c rest]; [discriminate |]. cbn [truthy negb orb].
    destruct (trim (c :: rest)) eqn:T; [| reflexivity].
    apply (proj1 (trim_nil_iff _)) in T. congruence.
Qed.

Lemma eqb_eq (a b : jsstring) : Js.eqb a b = true <-> a = b.
Proof.
  unfold Js.eqb. destruct (list_eq_dec N.eq_dec a b); split; intros;
    (reflexivity || assumption || discriminate || contradiction).
Qed.

End JsFacts.

(** ** The raw transcript pane *)
Section TranscriptFacts.



Lemma insertBefore_last (n : node) (i : nat) (t : jsstring) (segs : list node) :
  forallb is_segment segs = true ->
  insertBefore n i (segs ++ [Interim i t]) = (segs ++ [n]) ++ [Interim i t].
Proof.
  induction segs as [| x rest IH]; cbn [forallb List.app insertBefore].
  - intros _. cbn [has_id]. now rewrite Nat.eqb_refl.
  - intros H. apply andb_prop in H as [Hx Hr].
    destruct x; [| discriminate]. cbn [has_id]. now rewrite (IH Hr).
Qed.

Lemma set_text_last (i : nat) (t t' : jsstring) (segs : list node) :
  forallb is_segment segs = true ->
  set_text i t' (segs ++ [Interim i t]) = segs ++ [Interim i t'].
Proof.
  intros H. unfold set_text. rewrite map_app. cbn [map has_id].
  rewrite Nat.eqb_refl. f_equal.
  induction segs as [| x rest IH]; [reflexivity |].
  cbn [forallb] in H. apply andb_prop in H as [Hx Hr].
  destruct x; [| discriminate]. cbn [map has_id]. now rewrite (IH Hr).
Qed.

Lemma segments_app (l m : list node) :
  segments (l ++ m) = segments l ++ segments m.
Proof.
  induction l as [| [t a | j t] rest IH]; cbn [List.app segments];
    [reflexivity | now rewrite IH | exact IH].
Qed.

Lemma segments_rev (l : list node) : segments (rev l) = rev (segments l).
Proof.
  induction l as [| [t a | j t] rest IH]; cbn [rev segments];
    [reflexivity | |]; rewrite segments_app, IH; cbn [segments];
    [reflexivity | apply app_nil_r].
Qed.

Lemma segments_mark_last_rev (l : list node) :
  segments (mark_last_rev l) = segments l.
Proof.
  induction l as [| [t a | j t] rest IH]; cbn [mark_last_rev segments];
    [reflexivity | reflexivity | exact IH].
Qed.

Lemma segments_clear_active (l : list node) :
  segments (map clear_active l) = segments l.
Proof.
  induction l as [| [t a | j t] rest IH]; cbn [map clear_active segments];
    [reflexivity | now rewrite IH | exact IH].
Qed.

Lemma segments_mark_last (l : list node) : segments (mark_last l) = segments l.
Proof.
  unfold mark_last.
  now rewrite segments_rev, segments_mark_last_rev, segments_rev, rev_involutive.
Qed.


Lemma is_segment_mark_last_rev (l : list node) :
  forallb is_segment (mark_last_rev l) = forallb is_segment l.
Proof.
  induction l as [| [t a | j t] rest IH]; cbn [mark_last_rev forallb is_segment];
    [reflexivity | reflexivity | now rewrite IH].
Qed.

Lemma is_segment_rev (l : list node) :
  forallb is_segment (rev l) = forallb is_segment l.
Proof.
  induction l as [| n rest IH]; [reflexivity |].
  cbn [rev forallb]. rewrite forallb_app, IH. cbn [forallb].
  rewrite andb_true_r. apply andb_comm.
Qed.

Lemma is_segment_clear_active (l : list node) :
  forallb is_segment (map clear_active l) = forallb is_segment l.
Proof.
  induction l as [| [t a | j t] rest IH]; cbn [map clear_active forallb is_segment];
    [reflexivity | exact IH | reflexivity].
Qed.

Lemma mark_last_interim (l : list node) (i : nat) (t : jsstring) :
  mark_last (l ++ [Interim i t]) = mark_last l ++ [Interim i t].
Proof.
  unfold mark_last. rewrite rev_app_distr. cbn [rev List.app mark_last_rev].
  reflexivity.
Qed.



End TranscriptFacts.

Section PaneInvariant.

Lemma interim_last_panes (s s' : app) :
  panes s' = panes s -> interim_last s -> interim_last s'.
Proof.
  unfold panes, interim_last. intros E (segs & i & t & Hc & Hs & Hr).
  injection E as Ec Er. exists segs, i, t. now rewrite Ec, Er.
Qed.

Lemma finalized_panes (s s' : app) :
  panes s' = panes s -> finalized s' = finalized s.
Proof. unfold panes, finalized. now intros [= -> _]. Qed.

Lemma interim_last_attached (s : app) (segs : list node) (i : nat)
    (t : jsstring) :
  children (rawTranscription s) = segs ++ [Interim i t] ->
  attached i (rawTranscription s) = true.
Proof.
  intros Hc. unfold attached. rewrite Hc, existsb_app. cbn [existsb has_id].
  rewrite Nat.eqb_refl. cbn. apply orb_true_r.
Qed.


Lemma appendRawSegment_blank (text : jsstring) (s : app) :
  blank text = true -> appendRawSegment text s = s.
Proof.
  intros B. unfold appendRawSegment. now rewrite guard_blank, B.
Qed.

Lemma appendRawSegment_tidy (text : jsstring) (s : app) :
  interim_last s -> blank text = false ->
  interim_last (appendRawSegment text s)
  /\ finalized (appendRawSegment text s) = finalized s ++ [text ++ js " "]
  /\ interim_slot (appendRawSegment text s) = interim_slot s.
Proof.
  intros (segs & i & t & Hc & Hs & Hr) B. unfold appendRawSegment.
  rewrite guard_blank, B, Hr, (interim_last_attached s segs i t Hc).
  unfold interim_last, finalized, interim_slot.
  cbn [rawTranscription rawInterimSpan set_rawTranscription children].
  rewrite Hr, Hc, (insertBefore_last _ i t segs Hs). split; [| split].
  - exists (segs ++ [Segment (text ++ js " ") false]), i, t.
    split; [reflexivity |]. split; [| reflexivity].
    rewrite forallb_app, Hs. reflexivity.
  - rewrite !segments_app. cbn [segments]. now rewrite !app_nil_r.
  - clear Hc. induction segs as [| x rest IH]; cbn [List.app interim_text].
    + reflexivity.
    + cbn [forallb] in Hs. apply andb_prop in Hs as [Hx Hrest].
      destruct x; [exact (IH Hrest) | discriminate].
Qed.



Lemma highlightActiveSegment_tidy (s : app) :
  interim_last s ->
  interim_last (highlightActiveSegment s)
  /\ finalized (highlightActiveSegment s) = finalized s.
Proof.
  intros T. pose proof T as (segs & i & t & Hc & Hs & Hr).
  unfold highlightActiveSegment.
  destruct (existsb is_segment (children (rawTranscription s)));
    [| split; [exact T | reflexivity]].
  unfold interim_last, finalized.
  cbn [rawTranscription rawInterimSpan set_rawTranscription children].
  split.
  - exists (mark_last (map clear_active segs)), i, t.
    rewrite Hc, map_app. cbn [map clear_active].
    rewrite mark_last_interim. split; [reflexivity |]. split; [| exact Hr].
    unfold mark_last.
    now rewrite is_segment_rev, is_segment_mark_last_rev, is_segment_rev,
      is_segment_clear_active.
  - now rewrite segments_mark_last, segments_clear_active.
Qed.

Lemma appendTranslatedText_panes (text : jsstring) (s : app) :
  panes (appendTranslatedText text s) = panes s.
Proof. unfold appendTranslatedText. now destruct (negb (truthy text)). Qed.

Lemma reset_panes_tidy (s : app) :
  interim_last (reset_panes s) /\ finalized (reset_panes s) = []
  /\ interim_slot (reset_panes s) = Some [].
Proof.
  unfold reset_panes, ensureInterimSpan, interim_last, finalized, interim_slot.
  cbn. rewrite Nat.eqb_refl. split; [| split; reflexivity].
  exists [], (next_id s), []. repeat split.
Qed.

End PaneInvariant.

(** ** Handlers of [VoiceNotesApp] *)
Section HandlerFacts.

Import VoiceNotesApp.

Lemma stop_tracks_effects (l : list track) (s : app) :
  stop_tracks l s = set_effects (effects s ++ map TrackStop l) s.
Proof.
  unfold stop_tracks. revert s.
  induction l as [| t rest IH]; intros s; cbn [fold_left map].
  - rewrite app_nil_r. now destruct s.
  - rewrite IH. unfold emit. cbn [effects set_effects].
    now rewrite <- app_assoc.
Qed.

Lemma onresult_recognition (i : nat) (results : list recognition_result)
    (s : app) :
  recognition (onresult i results s) = recognition s.
Proof.
  unfold onresult, updateInterimText, appendRawSegment,
    handleTranslationAndTTS_request, ensureInterimSpan.
  split_cases; reflexivity.
Qed.

Lemma handleTranslationAndTTS_recognition (o : generate_outcome) (s : app) :
  recognition (handleTranslationAndTTS o s) = recognition s.
Proof.
  destruct o as [| [t |]];
    unfold handleTranslationAndTTS, translateTextWithFlash,
      highlightActiveSegment, appendTranslatedText;
    split_cases; reflexivity.
Qed.

Lemma stopLiveSession_recognition (s : app) :
  recognition (stopLiveSession s) = recognition s.
Proof.
  unfold stopLiveSession. cbv zeta.
  split_cases; rewrite ?stop_tracks_effects; reflexivity.
Qed.

(** No callback creates or drops the recogniser. *)
Lemma handle_recognition (s : app) (e : event) :
  recognition (handle s e) = recognition s.
Proof.
  destruct e; cbn [handle].
  - destruct (recognition s) eqn:R; [| exact R].
    now rewrite onresult_recognition.
  - unfold onerror. split_cases; fields; congruence.
  - unfold onend. split_cases; fields; congruence.
  - unfold restart. split_cases; fields; congruence.
  - unfold audioprocess. split_cases; fields; congruence.
  - unfold onopen. split_cases; fields; congruence.
  - unfold onclose. split_cases; fields; congruence.
  - unfold onconnectionerror. split_cases; fields; congruence.
  - apply handleTranslationAndTTS_recognition.
  - destruct (isRecording s); [apply stopLiveSession_recognition | reflexivity].
Qed.





Lemma acquire_panes (env : environment) (s0 : app) :
  panes (acquire env s0) = panes s0.
Proof.
  unfold acquire, open_session, start_failed. cbv zeta.
  split_cases; reflexivity.
Qed.

End HandlerFacts.

(** ** The raw transcript: interim slot and finalized sequence *)
Section TranscriptClaims.

Import VoiceNotesApp.

(** C10.  A text that is empty or made only of white space leaves the
    application untouched when it is handed to [appendRawSegment]: no
    segment is appended, and the segments and the interim slot are what
    they were. *)
Theorem blank_final_is_dropped (text : jsstring) (s : app) :
  (forall c, In c text -> is_white_space c = true) ->
  appendRawSegment text s = s
  /\ finalized (appendRawSegment text s) = finalized s
  /\ interim_slot (appendRawSegment text s) = interim_slot s
  /\ rawTranscription (appendRawSegment text s) = rawTranscription s.
Proof.
  intros H.
  assert (B : blank text = true) by (apply forallb_forall; exact H).
  rewrite (appendRawSegment_blank text s B). repeat split.
Qed.

Lemma blank_final_is_dropped_witness :
  let text := js "  " ++ [9%N; 160%N; 10%N] in
  (forall c, In c text -> is_white_space c = true)
  /\ appendRawSegment text (startLiveSession
       (mkEnvironment true [] [] (js "en-US") (js "es") None
          (inr []) (inr [mkTrack 0 audio]) true false false) initial)
     = startLiveSession
         (mkEnvironment true [] [] (js "en-US") (js "es") None
            (inr []) (inr [mkTrack 0 audio]) true false false) initial.
Proof.
  intros text.
  assert (H : forall c, In c text -> is_white_space c = true).
  { apply forallb_forall. reflexivity. }
  split; [exact H |].
  exact (proj1 (blank_final_is_dropped text _ H)).
Defined.

End TranscriptClaims.

(** ** Restarts and audio frames *)
Section ControlFacts.

Import VoiceNotesApp.

Lemma control_fields (a b : app) :
  control a = control b ->
  isRecording a = isRecording b /\ isWebSpeechActive a = isWebSpeechActive b
  /\ processor a = processor b /\ onaudioprocess a = onaudioprocess b
  /\ effects a = effects b.
Proof. unfold control. intros [= -> -> -> -> ->]. repeat split. Qed.

Lemma control_ensureInterimSpan (s : app) :
  control (ensureInterimSpan s) = control s.
Proof. unfold ensureInterimSpan. split_cases; reflexivity. Qed.

Lemma control_appendRawSegment (text : jsstring) (s : app) :
  control (appendRawSegment text s) = control s.
Proof.
  unfold appendRawSegment. split_cases;
    rewrite ?control_ensureInterimSpan; reflexivity.
Qed.

Lemma control_updateInterimText (text : jsstring) (s : app) :
  control (updateInterimText text s) = control s.
Proof.
  unfold updateInterimText. cbv zeta.
  destruct (rawInterimSpan (ensureInterimSpan s));
    [change (control (ensureInterimSpan s) = control s) |];
    apply control_ensureInterimSpan.
Qed.

Lemma control_highlightActiveSegment (s : app) :
  control (highlightActiveSegment s) = control s.
Proof. unfold highlightActiveSegment. split_cases; reflexivity. Qed.

Lemma control_appendTranslatedText (text : jsstring) (s : app) :
  control (appendTranslatedText text s) = control s.
Proof. unfold appendTranslatedText. split_cases; reflexivity. Qed.

Lemma step_same (s s' : app) (l : list effect) :
  isRecording s' = isRecording s ->
  isWebSpeechActive s' = isWebSpeechActive s ->
  processor s' = processor s ->
  onaudioprocess s' = onaudioprocess s ->
  effects s' = effects s ++ l ->
  filter is_start l = [] -> filter is_realtime_input l = [] ->
  step s s'.
Proof.
  intros H1 H2 H3 H4 H5 H6 H7. unfold step. rewrite H1, H2, H3, H4.
  repeat split; auto. exists l. auto.
Qed.

Lemma onresult_step (i : nat) (results : list recognition_result) (s : app) :
  step s (onresult i results s).
Proof.
  unfold onresult. destruct (collect (skipn i results)) as [final interim].
  match goal with
  | |- step s (updateInterimText _ ?x) =>
      destruct (control_fields _ _ (control_updateInterimText interim x))
        as (U1 & U2 & U3 & U4 & U5)
  end.
  destruct (control_fields _ _ (control_appendRawSegment final s))
    as (A1 & A2 & A3 & A4 & A5).
  destruct (truthy final).
  - destruct (_ && _).
    + unfold handleTranslationAndTTS_request in *. fields_in_all.
      eapply step_same with (l := [GenerateContent _ _]);
        try congruence; try reflexivity.
      rewrite U5, A5. reflexivity.
    + eapply step_same with (l := []); try congruence; try reflexivity.
      rewrite app_nil_r. congruence.
  - eapply step_same with (l := []); try congruence; try reflexivity.
    rewrite app_nil_r. congruence.
Qed.

Lemma handleTranslationAndTTS_step (o : generate_outcome) (s : app) :
  step s (handleTranslationAndTTS o s).
Proof.
  unfold handleTranslationAndTTS.
  destruct (translateTextWithFlash o s) as [text s1] eqn:E.
  assert (S1 : exists l, control s1 = control (set_effects (effects s ++ l) s)
                         /\ filter is_start l = []
                         /\ filter is_realtime_input l = []).
  { unfold translateTextWithFlash in E.
    destruct o as [| [t |]]; injection E as <- <-.
    - exists [Console "Translation error:"]. repeat split.
    - exists []. rewrite app_nil_r. repeat split.
    - exists [Console "Translation error:"]. repeat split. }
  destruct S1 as (l & C & L1 & L2).
  destruct (control_fields _ _ C) as (C1 & C2 & C3 & C4 & C5). fields_in_all.
  destruct (negb (truthy text)).
  - now apply step_same with (l := l).
  - set (s2 := highlightActiveSegment (appendTranslatedText text s1)).
    assert (C' : control s2 = control s1).
    { unfold s2. rewrite control_highlightActiveSegment.
      apply control_appendTranslatedText. }
    destruct (control_fields _ _ C') as (D1 & D2 & D3 & D4 & D5).
    destruct (sessionPromise s2).
    + apply step_same with (l := l ++ [SessionSend text true]); fields_in_all;
        try congruence.
      * rewrite D5, C5. now rewrite app_assoc.
      * rewrite filter_app, L1. reflexivity.
      * rewrite filter_app, L2. reflexivity.
    + apply step_same with (l := l); congruence.
Qed.

(** Settles [step] once the handler is unfolded and its tests are split. *)
Ltac step_parts :=
  unfold step; fields_in_all; andb_hyps;
  split; [intros; congruence |];
  split; [intros; congruence |];
  split; [intros; congruence |];
  split;
    [intros; first [left; split; congruence | right; split; congruence] |];
  eexists;
  split;
    [rewrite <- ?app_assoc; first [reflexivity | symmetry; apply app_nil_r] |];
  split;
    [first [left; reflexivity | right; split; congruence]
    | first [left; reflexivity | right; congruence]].

Lemma step_refl (s : app) : step s s.
Proof. step_parts. Qed.

Lemma filter_TrackStop (f : effect -> bool) (l : list track) :
  (forall t, f (TrackStop t) = false) -> filter f (map TrackStop l) = [].
Proof.
  intros H. induction l as [| t rest IH]; [reflexivity |].
  cbn [map filter]. now rewrite H.
Qed.

Lemma stopLiveSession_step (s : app) : step s (stopLiveSession s).
Proof.
  unfold stopLiveSession. cbv zeta.
  split_cases; rewrite ?stop_tracks_effects; unfold step; fields_in_all;
    (split; [intros; congruence |];
     split; [intros; congruence |];
     split; [intros; congruence |];
     split;
       [intros; first [left; split; congruence | right; split; congruence] |];
     eexists;
     split;
       [rewrite <- ?app_assoc;
        first [reflexivity | symmetry; apply app_nil_r] |];
     split; left;
       rewrite ?filter_app, ?filter_TrackStop by reflexivity; reflexivity).
Qed.

Lemma handle_step (s : app) (e : event) : step s (handle s e).
Proof.
  destruct e; cbn [handle].
  - destruct (recognition s); [apply onresult_step | apply step_refl].
  - unfold onerror. split_cases; step_parts.
  - unfold onend. split_cases; step_parts.
  - unfold restart. split_cases; step_parts.
  - unfold audioprocess. split_cases; step_parts.
  - unfold onopen. cbv zeta. split_cases; step_parts.
  - unfold onclose. split_cases; step_parts.
  - unfold onconnectionerror. split_cases; step_parts.
  - apply handleTranslationAndTTS_step.
  - destruct (isRecording s); [apply stopLiveSession_step | apply step_refl].
Qed.

End ControlFacts.

Section SessionFacts.

Import VoiceNotesApp.

Lemma run_cons (s : app) (e : event) (events : list event) :
  run s (e :: events) = run (handle s e) events.
Proof. reflexivity. Qed.

Lemma not_true_false (b b' : bool) : (b' = true -> b = true) -> b = false -> b' = false.
Proof. destruct b'; intros H E; [rewrite H in E by reflexivity; discriminate | reflexivity]. Qed.

(** Once one of the two flags is down, no callback restarts the
    recogniser, and the flag stays down. *)
Lemma run_keeps_recording_down (events : list event) :
  forall s,
    isRecording s = false ->
    isRecording (run s events) = false /\ restarts (run s events) = restarts s.
Proof.
  induction events as [| e rest IH]; intros s F; [split; [exact F | reflexivity] |].
  rewrite run_cons.
  destruct (handle_step s e) as (H1 & _ & _ & _ & l & El & [Hs | [Hr _]] & _);
    [| congruence].
  destruct (IH (handle s e) (not_true_false _ _ H1 F)) as [A B].
  split; [exact A |]. rewrite B. unfold restarts.
  rewrite El, filter_app, Hs. apply app_nil_r.
Qed.

Lemma run_keeps_active_down (events : list event) :
  forall s,
    isWebSpeechActive s = false ->
    isWebSpeechActive (run s events) = false
    /\ restarts (run s events) = restarts s.
Proof.
  induction events as [| e rest IH]; intros s F; [split; [exact F | reflexivity] |].
  rewrite run_cons.
  destruct (handle_step s e) as (_ & H2 & _ & _ & l & El & [Hs | [_ Ha]] & _);
    [| congruence].
  destruct (IH (handle s e) (not_true_false _ _ H2 F)) as [A B].
  split; [exact A |]. rewrite B. unfold restarts.
  rewrite El, filter_app, Hs. apply app_nil_r.
Qed.

(** Without processor and without audio handler, no audio chunk is sent. *)
Lemma run_sends_no_audio (events : list event) :
  forall s,
    processor s = false -> onaudioprocess s = false ->
    realtime_inputs (run s events) = realtime_inputs s.
Proof.
  induction events as [| e rest IH]; intros s P A; [reflexivity |].
  rewrite run_cons.
  destruct (handle_step s e) as (_ & _ & H3 & H4 & l & El & _ & [Hs | Ha]);
    [| congruence].
  assert (P' : processor (handle s e) = false) by exact (not_true_false _ _ H3 P).
  assert (A' : onaudioprocess (handle s e) = false).
  { destruct (onaudioprocess (handle s e)); [| reflexivity].
    destruct (H4 eq_refl) as [[_ C] | [C _]]; congruence. }
  rewrite (IH _ P' A'). unfold realtime_inputs.
  rewrite El, filter_app, Hs. apply app_nil_r.
Qed.

Lemma control_set_panes (c : container) (r : option nat) (s : app) :
  control (set_rawInterimSpan r (set_rawTranscription c s)) = control s.
Proof. reflexivity. Qed.

Lemma control_set_translatedContent (l : list tnode) (s : app) :
  control (set_translatedContent l s) = control s.
Proof. reflexivity. Qed.

Lemma control_reset_panes (s : app) : control (reset_panes s) = control s.
Proof.
  unfold reset_panes.
  rewrite control_set_translatedContent, control_ensureInterimSpan.
  apply control_set_panes.
Qed.


Lemma take_timer_last (cb : callback) (d : Z) (l : list (callback * Z)) :
  exists rest, take_timer cb (l ++ [(cb, d)]) = Some rest.
Proof.
  induction l as [| [c d'] l IH]; cbn [List.app take_timer].
  - exists []. now destruct cb.
  - destruct (callback_eqb cb c); [now exists (l ++ [(cb, d)]) |].
    destruct IH as [rest ->]. now exists ((c, d') :: rest).
Qed.

End SessionFacts.

(** ** The recogniser: errors, restart on end, and stop *)
Section RecogniserClaims.

Import VoiceNotesApp.

(** C7.  When [onerror] fires with 'not-allowed' or 'aborted' the active
    flag goes down, and whatever callbacks follow in the session the flag
    stays down and [recognition.start()] is not called again.  Any other
    code is only logged: the state is otherwise what it was, so that, while
    the session is recording and the adapter is active, an [onend] schedules
    the restart callback 100 ms later, and that callback calls
    [recognition.start()] once and takes the flag down exactly when the call
    throws; while either flag is down, [onend] does nothing. *)
Theorem recogniser_error_classification (s : app) (code : jsstring)
    (events : list event) (start_throws : bool) :
  (code = js "not-allowed" \/ code = js "aborted" ->
   isWebSpeechActive (onerror code s) = false
   /\ isWebSpeechActive (run (onerror code s) events) = false
   /\ restarts (run (onerror code s) events) = restarts (onerror code s))
  /\ (code <> js "not-allowed" -> code <> js "aborted" ->
      onerror code s = emit (Console "WebSpeech error") s
      /\ (isRecording s = true -> isWebSpeechActive s = true ->
          let s1 := onend (onerror code s) in
          let s2 := handle s1 (Timeout restart_recognition start_throws) in
          timers s1 = timers s ++ [(restart_recognition, 100)]
          /\ restarts s1 = restarts s
          /\ restarts s2 = restarts s ++ [RecognitionStart]
          /\ isWebSpeechActive s2 = negb start_throws)
      /\ (isRecording s = false \/ isWebSpeechActive s = false ->
          onend (onerror code s) = onerror code s)).
Proof.
  split.
  - intros Hc.
    assert (D : isWebSpeechActive (onerror code s) = false).
    { unfold onerror.
      destruct Hc as [-> | ->];
        rewrite (proj2 (eqb_eq _ _) eq_refl), ?orb_true_r; reflexivity. }
    split; [exact D |]. exact (run_keeps_active_down events _ D).
  - intros N1 N2.
    assert (E : onerror code s = emit (Console "WebSpeech error") s).
    { unfold onerror.
      destruct (Js.eqb code (js "aborted")) eqn:E1;
        [apply eqb_eq in E1; contradiction |].
      destruct (Js.eqb code (js "not-allowed")) eqn:E2;
        [apply eqb_eq in E2; contradiction |].
      reflexivity. }
    rewrite E. split; [reflexivity |]. split.
    + intros R A s1 s2.
      assert (E1 : s1 = set_timers (timers s ++ [(restart_recognition, 100)])
                          (emit (Console "WebSpeech error") s)).
      { unfold s1, onend, emit. cbn [isRecording isWebSpeechActive set_effects
                                       timers].
        now rewrite R, A. }
      assert (F1 : restarts s1 = restarts s).
      { rewrite E1. unfold restarts, emit. cbn [effects set_effects set_timers].
        rewrite filter_app. apply app_nil_r. }
      split; [now rewrite E1 |]. split; [exact F1 |].
      unfold s2. cbn [handle].
      destruct (take_timer_last restart_recognition 100 (timers s)) as [rest T].
      replace (timers s1) with (timers s ++ [(restart_recognition, 100)])
        by now rewrite E1.
      rewrite T. unfold restart.
      replace (isRecording (set_timers rest s1)) with true
        by (rewrite E1; symmetry; exact R).
      replace (isWebSpeechActive (set_timers rest s1)) with true
        by (rewrite E1; symmetry; exact A).
      cbn [andb].
      assert (F2 : restarts (emit RecognitionStart (set_timers rest s1))
                   = restarts s ++ [RecognitionStart]).
      { rewrite <- F1. unfold restarts, emit.
        cbn [effects set_effects set_timers]. now rewrite filter_app. }
      destruct start_throws; cbn [negb]; split; try reflexivity.
      * rewrite <- F2. unfold restarts, emit.
        cbn [effects set_effects set_isWebSpeechActive].
        rewrite (filter_app _ _ [Console _]). apply app_nil_r.
      * exact F2.
      * rewrite E1. exact A.
    + intros D. unfold onend, emit.
      cbn [isRecording isWebSpeechActive set_effects].
      destruct D as [-> | ->]; [reflexivity | now rewrite andb_false_r].
Qed.

Lemma recogniser_error_classification_witness :
  let s := run (startLiveSession mic_translating initial) [Open] in
  let fatal := onerror (js "not-allowed") s in
  let late := [RecognitionEnd; Timeout restart_recognition false;
               RecognitionEnd] in
  isRecording s = true /\ isWebSpeechActive s = true
  /\ isWebSpeechActive fatal = false
  /\ restarts (run fatal late) = restarts fatal
  /\ restarts
       (handle (onend (onerror (js "network") s))
          (Timeout restart_recognition true))
     = restarts s ++ [RecognitionStart].
Proof.
  intros s fatal late.
  assert (R : isRecording s = true) by reflexivity.
  assert (A : isWebSpeechActive s = true) by reflexivity.
  split; [exact R |]. split; [exact A |].
  destruct (recogniser_error_classification s (js "not-allowed") late true)
    as [F _].
  destruct (F (or_introl eq_refl)) as (F1 & _ & F3).
  split; [exact F1 |]. split; [exact F3 |].
  destruct (recogniser_error_classification s (js "network") late true)
    as [_ N].
  assert (N1 : js "network" <> js "not-allowed") by discriminate.
  assert (N2 : js "network" <> js "aborted") by discriminate.
  destruct (N N1 N2) as (_ & G & _).
  exact (proj1 (proj2 (proj2 (G R A)))).
Defined.


End RecogniserClaims.

(** ** Translation failures *)
Section TranslationClaims.

Import VoiceNotesApp.

(** C8.  When the translation request is rejected, or its response has no
    text, or a text that is empty or blank, [translateTextWithFlash] gives
    the empty string (it has caught and logged whatever was thrown), and
    [handleTranslationAndTTS] then changes nothing but that log: the
    translated pane, the raw pane with its highlight, and the messages sent
    to the live session are what they were. *)
Theorem failed_translation_is_silent (outcome : generate_outcome) (s : app) :
  (outcome = Rejected \/ outcome = Resolved None
   \/ exists text, outcome = Resolved (Some text) /\ blank text = true) ->
  let s' := handleTranslationAndTTS outcome s in
  fst (translateTextWithFlash outcome s) = []
  /\ (s' = s \/ s' = emit (Console "Translation error:") s)
  /\ translatedContent s' = translatedContent s
  /\ translated_placeholder s' = translated_placeholder s
  /\ rawTranscription s' = rawTranscription s
  /\ actions s' = actions s.
Proof.
  intros H s'. unfold s', handleTranslationAndTTS.
  destruct H as [-> | [-> | (text & -> & B)]];
    cbn [translateTextWithFlash fst snd truthy negb].
  - split; [reflexivity |]. split; [right; reflexivity |].
    do 3 (split; [reflexivity |]). unfold actions, emit.
    cbn [effects set_effects]. rewrite filter_app. apply app_nil_r.
  - split; [reflexivity |]. split; [right; reflexivity |].
    do 3 (split; [reflexivity |]). unfold actions, emit.
    cbn [effects set_effects]. rewrite filter_app. apply app_nil_r.
  - rewrite (proj2 (trim_nil_iff text) B). cbn [truthy negb].
    split; [reflexivity |]. split; [left; reflexivity |].
    repeat split.
Qed.

Lemma failed_translation_is_silent_witness :
  let s := run (startLiveSession mic_translating initial)
             [Open; Result 0 [mkResult true (js "good morning")]] in
  finalized s = [js "good morning "]
  /\ handleTranslationAndTTS (Resolved (Some (js "  "))) s = s
  /\ translatedContent (handleTranslationAndTTS Rejected s) = []
  /\ translatedContent (handleTranslationAndTTS (Resolved (Some (js "buenos dias"))) s)
     <> [].
Proof.
  intros s. split; [reflexivity |].
  assert (B : exists text, Resolved (Some (js "  ")) = Resolved (Some text)
                           /\ blank text = true)
    by (exists (js "  "); split; reflexivity).
  destruct (failed_translation_is_silent _ s (or_intror (or_intror B)))
    as (_ & [E | E] & _).
  - split; [exact E |]. split.
    + exact (proj1 (proj2 (proj2
        (failed_translation_is_silent Rejected s (or_introl eq_refl))))).
    + vm_compute. discriminate.
  - exfalso. revert E. vm_compute. discriminate.
Defined.

End TranslationClaims.

(** ** Starting a session: plan, capture and audio routing *)
Section StartFacts.

Lemma wiring_fields (a b : app) :
  wiring a = wiring b ->
  selectedSourceType a = selectedSourceType b /\ closure a = closure b
  /\ stream a = stream b /\ sessionPromise a = sessionPromise b
  /\ sourceNode a = sourceNode b /\ audioContext a = audioContext b
  /\ outputAudioContext a = outputAudioContext b
  /\ recognition a = recognition b /\ timers a = timers b
  /\ recordingStatus a = recordingStatus b.
Proof.
  unfold wiring. intros E. injection E as -> -> -> -> -> -> -> _ -> -> ->.
  repeat split.
Qed.

Lemma wiring_ensureInterimSpan (s : app) :
  wiring (ensureInterimSpan s) = wiring s.
Proof. unfold ensureInterimSpan. split_cases; reflexivity. Qed.

Lemma wiring_set_panes (c : container) (r : option nat) (s : app) :
  wiring (set_rawInterimSpan r (set_rawTranscription c s)) = wiring s.
Proof. reflexivity. Qed.

Lemma wiring_set_translatedContent (l : list tnode) (s : app) :
  wiring (set_translatedContent l s) = wiring s.
Proof. reflexivity. Qed.

Lemma wiring_reset_panes (s : app) : wiring (reset_panes s) = wiring s.
Proof.
  unfold reset_panes.
  rewrite wiring_set_translatedContent, wiring_ensureInterimSpan.
  apply wiring_set_panes.
Qed.

Lemma voice_begin_session (s : app) :
  control (VoiceNotesApp.begin_session s)
  = control (set_isWebSpeechActive false (set_isRecording true s))
  /\ wiring (VoiceNotesApp.begin_session s)
     = wiring (set_recordingStatus (js "Initializing Live Session...") s).
Proof.
  unfold VoiceNotesApp.begin_session.
  rewrite control_reset_panes, wiring_reset_panes. split; reflexivity.
Qed.

Lemma control_ensureInterimContainer (s : app) :
  control (GeminiLiveApp.ensureInterimContainer s) = control s.
Proof. unfold GeminiLiveApp.ensureInterimContainer. split_cases; reflexivity. Qed.

Lemma wiring_ensureInterimContainer (s : app) :
  wiring (GeminiLiveApp.ensureInterimContainer s) = wiring s.
Proof. unfold GeminiLiveApp.ensureInterimContainer. split_cases; reflexivity. Qed.

Lemma gemini_begin_session (env : environment) (s : app) :
  let source :=
    if Js.eqb (unifiedSourceSelect env) (js "system") then system else mic in
  control (GeminiLiveApp.begin_session env s)
  = control (set_isWebSpeechActive false (set_isRecording true s))
  /\ wiring (GeminiLiveApp.begin_session env s)
     = wiring (set_selectedSourceType source
                 (set_recordingStatus (js "Initializing Live Session...") s)).
Proof.
  intros source. unfold GeminiLiveApp.begin_session. cbv zeta.
  rewrite control_set_translatedContent, wiring_set_translatedContent.
  rewrite control_ensureInterimContainer, wiring_ensureInterimContainer.
  rewrite control_set_panes, wiring_set_panes.
  split; reflexivity.
Qed.

Lemma no_audio_track (tracks : list track) :
  filter is_audio tracks = [] -> existsb is_audio tracks = false.
Proof.
  induction tracks as [| t rest IH]; [reflexivity |].
  cbn [filter existsb]. destruct (is_audio t); [discriminate | exact IH].
Qed.

End StartFacts.

Section ModeClaims.

Import ModeResolver.

Lemma prefixb_sound (s t : jsstring) :
  prefixb s t = true -> exists after, t = s ++ after.
Proof.
  revert t. induction s as [| a s IH]; intros t H.
  - now exists t.
  - destruct t as [| b t]; [discriminate |]. cbn [prefixb] in H.
    apply andb_prop in H as [E P]. apply N.eqb_eq in E. subst b.
    destruct (IH t P) as [after ->]. now exists after.
Qed.

Lemma includesb_sound (s t : jsstring) :
  includesb s t = true -> occurs_in s t.
Proof.
  induction t as [| b t IH]; cbn [includesb]; intros H.
  - rewrite orb_false_r in H. destruct (prefixb_sound _ _ H) as [after E].
    now exists [], after.
  - apply orb_prop in H as [P | I].
    + destruct (prefixb_sound _ _ P) as [after E]. now exists [], after.
    + destruct (IH I) as (before & after & ->). now exists (b :: before), after.
Qed.

Lemma occurs_in_app_r (s p t : jsstring) : occurs_in s t -> occurs_in s (p ++ t).
Proof.
  intros (before & after & ->). exists (p ++ before), after.
  now rewrite app_assoc.
Qed.

Lemma occurs_in_app_l (s t q : jsstring) : occurs_in s t -> occurs_in s (t ++ q).
Proof.
  intros (before & after & ->). exists before, (after ++ q).
  now rewrite <- !app_assoc.
Qed.

(** The prompt of a microphone session with translation: it only asks for
    the supplied text to be read aloud, and forbids translating and
    commenting. *)
Lemma reader_prompt_reads_only (lang : jsstring) :
  occurs_in (js "Your ONLY task is to read it aloud") (reader_prompt lang)
  /\ occurs_in (js "Do not translate (it is already translated).")
       (reader_prompt lang)
  /\ occurs_in (js "Do not comment.") (reader_prompt lang)
  /\ occurs_in (js "Just read the text provided.") (reader_prompt lang).
Proof.
  unfold reader_prompt. split; [| split; [| split]].
  - do 6 apply occurs_in_app_r. apply occurs_in_app_l.
    apply includesb_sound. reflexivity.
  - do 10 apply occurs_in_app_r. apply occurs_in_app_l.
    apply includesb_sound. reflexivity.
  - do 12 apply occurs_in_app_r. apply occurs_in_app_l.
    apply includesb_sound. reflexivity.
  - do 14 apply occurs_in_app_r.
    apply includesb_sound. reflexivity.
Qed.

End ModeClaims.

Section RoutingClaims.

Import ModeResolver.

Lemma voice_acquire_no_fallback (env : environment) (s0 : app)
    (tracks : list track) :
  selectedSourceType s0 = mic ->
  translation_mode (languageSelect env) (translationSelect env) = true ->
  getUserMedia env = inr tracks -> existsb is_audio tracks = true ->
  speechRecognition env = false \/ recognition_start_throws env = true ->
  isWebSpeechActive s0 = false ->
  let s1 := VoiceNotesApp.acquire env s0 in
  let s2 := VoiceNotesApp.handle s1 Open in
  sessionPromise s1 = true
  /\ In (Connect (reader_prompt (language_text env))) (effects s1)
  /\ isWebSpeechActive s2 = false
  /\ onaudioprocess s2 = false.
Proof.
  intros Hsrc Htm Hgum Haudio Hrec Hact s1 s2.
  unfold s2, s1, VoiceNotesApp.acquire, VoiceNotesApp.open_session,
    language_text.
  destruct (speechRecognition env) eqn:Hs, (recognition_start_throws env) eqn:Ht,
    (output_suspended env) eqn:Ho;
    try (destruct Hrec; congruence);
    cbv zeta; fields; rewrite Hsrc, Htm, Hgum; fields; rewrite Haudio;
    unfold systemInstruction; cbn [source_eqb andb VoiceNotesApp.handle];
    fields; unfold VoiceNotesApp.onopen; cbv zeta; fields;
    rewrite ?Hsrc, ?Htm;
    cbn [source_eqb andb orb negb isTranslationMode]; fields;
    (split; [reflexivity |]; split; [apply in_or_app; right; left; reflexivity |];
     split; [first [reflexivity | exact Hact] | reflexivity]).
Qed.

Lemma gemini_acquire_fallback (env : environment) (s0 : app)
    (tracks : list track) :
  selectedSourceType s0 = mic ->
  translation_mode (languageSelect env) (translationSelect env) = true ->
  getUserMedia env = inr tracks -> existsb is_audio tracks = true ->
  isWebSpeechActive s0 = false ->
  let s1 := GeminiLiveApp.acquire env s0 in
  let s2 := GeminiLiveApp.handle s1 Open in
  sessionPromise s1 = true
  /\ In (Connect (reader_prompt (language_text env))) (effects s1)
  /\ isWebSpeechActive s1
     = speechRecognition env && negb (recognition_start_throws env)
  /\ onaudioprocess s2 = negb (isWebSpeechActive s1).
Proof.
  intros Hsrc Htm Hgum Haudio Hact s1 s2.
  unfold s2, s1, GeminiLiveApp.acquire, GeminiLiveApp.open_session,
    language_text.
  destruct (speechRecognition env) eqn:Hs, (recognition_start_throws env) eqn:Ht,
    (output_suspended env) eqn:Ho;
    cbv zeta; fields; rewrite Hsrc, Htm, Hgum; fields; rewrite Haudio;
    unfold systemInstruction; cbn [source_eqb andb GeminiLiveApp.handle];
    fields; unfold GeminiLiveApp.onopen, GeminiLiveApp.startLiveDisplay;
    cbv zeta; fields; rewrite ?Hsrc, ?Htm, ?Hact;
    cbn [source_eqb andb orb negb isTranslationMode]; fields;
    (split; [reflexivity |]; split; [apply in_or_app; right; left; reflexivity |];
     split; reflexivity).
Qed.

Lemma audio_not_delivered (s : app) (inputData : list number) :
  onaudioprocess s = false ->
  VoiceNotesApp.handle s (AudioProcess inputData) = s.
Proof. intros H. cbn [VoiceNotesApp.handle]. now rewrite H. Qed.

(** C2, on [VoiceNotesApp].  A microphone session with translation resolves
    to the reader prompt, but when the local recogniser is missing or fails
    to start, the open connection still does not get the audio: the flag of
    the recogniser is down, no audio handler is installed, and an audio
    frame changes nothing. *)
Theorem voice_notes_never_falls_back (env : environment) (s : app)
    (tracks : list track) :
  selectedSourceType s = mic ->
  translation_mode (languageSelect env) (translationSelect env) = true ->
  getUserMedia env = inr tracks -> existsb is_audio tracks = true ->
  speechRecognition env = false \/ recognition_start_throws env = true ->
  let s1 := VoiceNotesApp.startLiveSession env s in
  let s2 := VoiceNotesApp.handle s1 Open in
  resolved_mode (selectedSourceType s)
    (translation_mode (languageSelect env) (translationSelect env))
  = MicTranslate
  /\ sessionPromise s1 = true
  /\ In (Connect (reader_prompt (language_text env))) (effects s1)
  /\ isWebSpeechActive s2 = false
  /\ onaudioprocess s2 = false
  /\ forall inputData, VoiceNotesApp.handle s2 (AudioProcess inputData) = s2.
Proof.
  intros Hsrc Htm Hgum Haudio Hrec.
  cbv zeta. unfold VoiceNotesApp.startLiveSession.
  destruct (voice_begin_session s) as [C W].
  destruct (control_fields _ _ C) as (_ & A & _).
  destruct (wiring_fields _ _ W) as (S & _).
  destruct (voice_acquire_no_fallback env (VoiceNotesApp.begin_session s)
              tracks (eq_trans S Hsrc) Htm Hgum Haudio Hrec A)
    as (P1 & P2 & P3 & P4).
  split; [rewrite Hsrc, Htm; reflexivity |].
  split; [exact P1 |]. split; [exact P2 |]. split; [exact P3 |].
  split; [exact P4 |].
  intros inputData. apply audio_not_delivered. exact P4.
Qed.

(** The same session on [GeminiLiveApp]: the audio handler is installed at
    the opening of the connection exactly when the recogniser is not
    active, that is when it is missing or failed to start. *)
Lemma gemini_live_falls_back (env : environment) (s : app)
    (tracks : list track) :
  api_key env = true ->
  Js.eqb (unifiedSourceSelect env) (js "system") = false ->
  translation_mode (languageSelect env) (translationSelect env) = true ->
  getUserMedia env = inr tracks -> existsb is_audio tracks = true ->
  let s1 := GeminiLiveApp.startLiveSession env s in
  let s2 := GeminiLiveApp.handle s1 Open in
  sessionPromise s1 = true
  /\ In (Connect (reader_prompt (language_text env))) (effects s1)
  /\ isWebSpeechActive s1
     = speechRecognition env && negb (recognition_start_throws env)
  /\ onaudioprocess s2 = negb (isWebSpeechActive s1).
Proof.
  intros Hkey Hsys Htm Hgum Haudio.
  unfold GeminiLiveApp.startLiveSession. rewrite Hkey. cbn [negb].
  destruct (gemini_begin_session env s) as [C W]. rewrite Hsys in W.
  destruct (control_fields _ _ C) as (_ & A & _).
  destruct (wiring_fields _ _ W) as (S & _).
  exact (gemini_acquire_fallback env (GeminiLiveApp.begin_session env s)
           tracks S Htm Hgum Haudio A).
Qed.

Lemma voice_notes_never_falls_back_witness :
  let env := mic_translating_without_recogniser in
  let s1 := VoiceNotesApp.startLiveSession env initial in
  let s2 := VoiceNotesApp.handle s1 Open in
  sessionPromise s1 = true
  /\ isWebSpeechActive s2 = false
  /\ onaudioprocess s2 = false
  /\ VoiceNotesApp.handle s2 (AudioProcess [Fin (1 # 2)]) = s2
  /\ onaudioprocess
       (GeminiLiveApp.handle (GeminiLiveApp.startLiveSession env initial) Open)
     = true.
Proof.
  intros env s1 s2.
  destruct (voice_notes_never_falls_back env initial [mkTrack 1 audio]
              eq_refl eq_refl eq_refl eq_refl (or_introl eq_refl))
    as (_ & P1 & _ & P3 & P4 & P5).
  split; [exact P1 |]. split; [exact P3 |]. split; [exact P4 |].
  split; [exact (P5 _) |].
  destruct (gemini_live_falls_back env initial [mkTrack 1 audio]
              eq_refl eq_refl eq_refl eq_refl eq_refl)
    as (_ & _ & G3 & G4).
  rewrite G4, G3. reflexivity.
Defined.

End RoutingClaims.

(** ** Display capture without audio track *)
Section CaptureClaims.

(** A grant of the display capture that holds no audio track. *)
Variable env : environment.
Variable tracks : list track.
Hypothesis granted : getDisplayMedia env = inr tracks.
Hypothesis silent : filter is_audio tracks = [].

Lemma voice_acquire_silent_grant (s0 : app) :
  selectedSourceType s0 = system ->
  let s' := VoiceNotesApp.acquire env s0 in
  stream s' = Some tracks
  /\ effects s'
     = effects s0 ++ [GetDisplayMedia]
       ++ (if output_suspended env then [Resume] else [])
       ++ [Console "Error starting live session:"]
  /\ recordingStatus s' = js "Error starting session"
  /\ isRecording s' = false
  /\ audioContext s' = true /\ outputAudioContext s' = true
  /\ sessionPromise s' = sessionPromise s0.
Proof.
  intros Hsrc s'. pose proof (no_audio_track tracks silent) as Hnone.
  unfold s', VoiceNotesApp.acquire, VoiceNotesApp.open_session,
    VoiceNotesApp.start_failed.
  destruct (output_suspended env); cbv zeta; fields;
    rewrite Hsrc, granted; fields; rewrite Hnone; fields;
    rewrite <- ?app_assoc; repeat split.
Qed.

Lemma capture_failed_fields (err : error) (s : app) :
  let s' := GeminiLiveApp.capture_failed err s in
  stream s' = stream s
  /\ effects s' = effects s ++ [Console "System audio denied"]
  /\ recordingStatus s'
     = (if Js.eqb (name err) (js "NotAllowedError")
           || Js.eqb (name err) (js "PermissionDeniedError")
        then js "Selection cancelled."
        else if truthy (message err) then message err
             else js "System audio error.")
  /\ isRecording s' = false
  /\ timers s' = timers s ++ [(reset_status, 3000)]
  /\ audioContext s' = audioContext s
  /\ outputAudioContext s' = outputAudioContext s
  /\ sessionPromise s' = sessionPromise s
  /\ recognition s' = recognition s.
Proof.
  unfold GeminiLiveApp.capture_failed. cbv zeta.
  destruct (Js.eqb (name err) (js "NotAllowedError")
            || Js.eqb (name err) (js "PermissionDeniedError"));
    repeat split.
Qed.

Lemma gemini_acquire_silent_grant (s0 : app) :
  selectedSourceType s0 = system ->
  let s' := GeminiLiveApp.acquire env s0 in
  stream s' = None
  /\ effects s'
     = effects s0 ++ [GetDisplayMedia] ++ map TrackStop tracks
       ++ [Console "System audio denied"]
  /\ recordingStatus s' = GeminiLiveApp.no_audio_track_message
  /\ isRecording s' = false
  /\ timers s' = timers s0 ++ [(reset_status, 3000)]
  /\ audioContext s' = audioContext s0
  /\ outputAudioContext s' = outputAudioContext s0
  /\ sessionPromise s' = sessionPromise s0
  /\ recognition s' = recognition s0.
Proof.
  intros Hsrc s'.
  assert (E : s' = GeminiLiveApp.capture_failed
                     (mkError (js "Error") GeminiLiveApp.no_audio_track_message)
                     (set_effects
                        ((effects s0 ++ [GetDisplayMedia]) ++ map TrackStop tracks)
                        (set_stream None
                           (set_closure
                              (mkCaptured
                                 (ModeResolver.translation_mode
                                    (languageSelect env) (translationSelect env))
                                 (language_text env)) s0)))).
  { unfold s', GeminiLiveApp.acquire. cbv zeta. fields.
    rewrite Hsrc, granted, silent. cbn [List.length Nat.eqb].
    rewrite stop_tracks_effects. reflexivity. }
  rewrite E.
  match goal with
  | |- context [GeminiLiveApp.capture_failed ?e ?x] =>
      destruct (capture_failed_fields e x)
        as (F1 & F2 & F3 & F4 & F5 & F6 & F7 & F8 & F9)
  end.
  rewrite F1, F2, F3, F4, F5, F6, F7, F8, F9. fields.
  rewrite <- !app_assoc. repeat split; reflexivity.
Qed.

(** C6, on [VoiceNotesApp].  When the display capture is granted without
    audio track, the session start of this class does not report it: the
    tracks of the grant are not stopped and stay in the [stream] field, both
    audio contexts have been created, and the status line is the one of any
    failed start. *)
Theorem voice_notes_keeps_silent_grant (s : app) :
  selectedSourceType s = system ->
  let s' := VoiceNotesApp.startLiveSession env s in
  stream s' = Some tracks
  /\ (forall t, In (TrackStop t) (effects s') -> In (TrackStop t) (effects s))
  /\ recordingStatus s' = js "Error starting session"
  /\ recordingStatus s' <> GeminiLiveApp.no_audio_track_message
  /\ isRecording s' = false
  /\ audioContext s' = true /\ outputAudioContext s' = true.
Proof.
  intros Hsrc. cbv zeta. unfold VoiceNotesApp.startLiveSession.
  destruct (voice_begin_session s) as [C W].
  destruct (control_fields _ _ C) as (_ & _ & _ & _ & E).
  destruct (wiring_fields _ _ W) as (S & _).
  destruct (voice_acquire_silent_grant (VoiceNotesApp.begin_session s)
              (eq_trans S Hsrc))
    as (P1 & P2 & P3 & P4 & P5 & P6 & _).
  split; [exact P1 |]. split.
  - intros t. rewrite P2, E. cbn [effects set_isWebSpeechActive set_isRecording].
    intros H. apply in_app_or in H as [H | H]; [exact H |].
    exfalso. destruct (output_suspended env); cbn in H;
      repeat (destruct H as [H | H]; [discriminate |]); exact H.
  - split; [exact P3 |]. split; [rewrite P3; discriminate |].
    split; [exact P4 |]. split; [exact P5 | exact P6].
Qed.

(** The same grant on [GeminiLiveApp]: every granted track is stopped and
    the stream released before anything else is recorded, the status line
    carries the message about the missing audio track, which is neither the
    one of a cancelled selection nor the generic one, and the start returns
    with no audio context, no recogniser and no connection created. *)
Lemma gemini_live_releases_silent_grant (s : app) :
  api_key env = true ->
  Js.eqb (unifiedSourceSelect env) (js "system") = true ->
  let s' := GeminiLiveApp.startLiveSession env s in
  stream s' = None
  /\ effects s'
     = effects s ++ [GetDisplayMedia] ++ map TrackStop tracks
       ++ [Console "System audio denied"]
  /\ recordingStatus s' = GeminiLiveApp.no_audio_track_message
  /\ GeminiLiveApp.no_audio_track_message <> js "Selection cancelled."
  /\ GeminiLiveApp.no_audio_track_message <> js "System audio error."
  /\ GeminiLiveApp.no_audio_track_message <> js "Microphone permission denied."
  /\ isRecording s' = false
  /\ audioContext s' = audioContext s
  /\ outputAudioContext s' = outputAudioContext s
  /\ sessionPromise s' = sessionPromise s
  /\ recognition s' = recognition s.
Proof.
  intros Hkey Hsys. cbv zeta.
  unfold GeminiLiveApp.startLiveSession. rewrite Hkey. cbn [negb].
  destruct (gemini_begin_session env s) as [C W]. rewrite Hsys in W.
  destruct (control_fields _ _ C) as (_ & _ & _ & _ & E).
  destruct (wiring_fields _ _ W)
    as (S & _ & _ & W4 & _ & W6 & W7 & W8 & _).
  destruct (gemini_acquire_silent_grant (GeminiLiveApp.begin_session env s) S)
    as (P1 & P2 & P3 & P4 & _ & P6 & P7 & P8 & P9).
  split; [exact P1 |]. split; [rewrite P2, E; reflexivity |].
  split; [exact P3 |]. do 3 (split; [discriminate |]).
  split; [exact P4 |]. split; [rewrite P6; exact W6 |].
  split; [rewrite P7; exact W7 |]. split; [rewrite P8; exact W4 |].
  rewrite P9. exact W8.
Qed.

(** A cancelled selection and a rejected permission get the other status
    line in [GeminiLiveApp]. *)
Lemma gemini_live_cancelled (s : app) (msg : jsstring) :
  recordingStatus
    (GeminiLiveApp.capture_failed (mkError (js "NotAllowedError") msg) s)
  = js "Selection cancelled."
  /\ recordingStatus
       (GeminiLiveApp.capture_failed (mkError (js "PermissionDeniedError") msg) s)
     = js "Selection cancelled.".
Proof. split; reflexivity. Qed.

End CaptureClaims.

Lemma voice_notes_keeps_silent_grant_witness :
  let s' := VoiceNotesApp.startLiveSession silent_grant
              (set_selectedSourceType system initial) in
  stream s' = Some [mkTrack 7 video]
  /\ effects s' = [GetDisplayMedia; Console "Error starting live session:"]
  /\ recordingStatus s' = js "Error starting session"
  /\ audioContext s' = true.
Proof.
  intros s'.
  destruct (voice_notes_keeps_silent_grant silent_grant [mkTrack 7 video]
              eq_refl eq_refl (set_selectedSourceType system initial) eq_refl)
    as (P1 & _ & P3 & _ & _ & P5 & _).
  split; [exact P1 |]. split; [reflexivity |]. split; [exact P3 | exact P5].
Defined.


(** * Further properties *)

(** ** The quantiser of the capture side *)
Section QuantiserFacts.

Local Open Scope Z_scope.

Lemma pcm_finite (q : Q) :
  Pcm.pcm_of_sample (Fin q) = truncate (Qmax (-1) (Qmin 1 q) * 32767).
Proof.
  destruct (clamp_finite q) as (c & Ec & Eq & Hc).
  unfold Pcm.pcm_of_sample. rewrite Ec. cbn [mul ToInt16].
  assert (B : -32767 <= truncate (c * 32767) <= 32767).
  { apply (truncate_bound (c * 32767) 32767).
    change (inject_Z 32767) with 32767%Q. lra. }
  rewrite wrap16_small by lia. apply truncate_comp. rewrite Eq. reflexivity.
Qed.

Lemma truncate_le (p q : Q) : (p <= q)%Q -> truncate p <= truncate q.
Proof.
  intros H. rewrite !truncate_floor_ceiling.
  destruct (Qle_bool 0 p) eqn:Ep, (Qle_bool 0 q) eqn:Eq.
  - now apply Qfloor_resp_le.
  - apply Qle_bool_iff in Ep.
    assert (C : Qle_bool 0 q = true)
      by (apply Qle_bool_iff; exact (Qle_trans _ _ _ Ep H)).
    congruence.
  - apply Qle_bool_iff in Eq.
    assert (Hp : (p < 0)%Q).
    { apply Qnot_le_lt. intros C. apply Qle_bool_iff in C. congruence. }
    apply Z.le_trans with 0.
    + apply Qlt_le_weak in Hp. apply Qceiling_resp_le in Hp. exact Hp.
    + apply Qfloor_resp_le in Eq. exact Eq.
  - now apply Qceiling_resp_le.
Qed.

Lemma truncate_opp (q : Q) : truncate (- q) = - truncate q.
Proof.
  destruct q as [n d]. unfold truncate, Qopp. cbn [Qnum Qden].
  apply Z.quot_opp_l. discriminate.
Qed.

(** X1.  The quantiser is monotone: a louder sample never gets a smaller
    16-bit value. *)
Theorem quantiser_is_monotone (p q : Q) :
  (p <= q)%Q -> Pcm.pcm_of_sample (Fin p) <= Pcm.pcm_of_sample (Fin q).
Proof.
  intros H. rewrite !pcm_finite. apply truncate_le.
  apply Qmult_le_compat_r; [| discriminate].
  apply Q.max_le_compat_l. apply Q.min_le_compat_l. exact H.
Qed.

Lemma quantiser_is_monotone_witness :
  ((1 # 4) <= (1 # 3))%Q
  /\ Pcm.pcm_of_sample (Fin (1 # 4)) <= Pcm.pcm_of_sample (Fin (1 # 3)).
Proof.
  assert (H : ((1 # 4) <= (1 # 3))%Q) by (unfold Qle; cbn; lia).
  split; [exact H | exact (quantiser_is_monotone _ _ H)].
Defined.

(** X2.  The quantiser is odd: the opposite sample gets the opposite value,
    so that silence is 0 and the two full-scale samples are 32767 and
    -32767; the value -32768 is never produced. *)
Theorem quantiser_is_odd (q : Q) (x : number) :
  Pcm.pcm_of_sample (Fin (- q)) = - Pcm.pcm_of_sample (Fin q)
  /\ Pcm.pcm_of_sample (Fin 0) = 0
  /\ Pcm.pcm_of_sample (Fin 1) = 32767
  /\ Pcm.pcm_of_sample (Fin (-1)) = -32767
  /\ Pcm.pcm_of_sample x <> -32768.
Proof.
  split; [| split; [reflexivity | split; [reflexivity | split; [reflexivity |]]]].
  - rewrite !pcm_finite, <- truncate_opp. apply truncate_comp.
    destruct (Qlt_le_dec q (-1)) as [L | L].
    + rewrite (Q.min_l 1 (- q)) by lra. rewrite (Q.max_r (-1) 1) by lra.
      rewrite (Q.min_r 1 q) by lra. rewrite (Q.max_l (-1) q) by lra. lra.
    + destruct (Qlt_le_dec 1 q) as [U | U].
      * rewrite (Q.min_r 1 (- q)) by lra. rewrite (Q.max_l (-1) (- q)) by lra.
        rewrite (Q.min_l 1 q) by lra. rewrite (Q.max_r (-1) 1) by lra. lra.
      * rewrite (Q.min_r 1 (- q)) by lra. rewrite (Q.max_r (-1) (- q)) by lra.
        rewrite (Q.min_r 1 q) by lra. rewrite (Q.max_r (-1) q) by lra. lra.
  - pose proof (pcm_of_sample_range x). lia.
Qed.

End QuantiserFacts.

(** ** Decoding and the order of the schedule *)
Section ScheduleFacts.

Import Playback.
Local Open Scope Q_scope.

Lemma pairs_ind (P : list Z -> Prop) :
  P [] -> (forall a, P [a]) ->
  (forall a b l, P l -> P (a :: b :: l)) -> forall l, P l.
Proof.
  intros H0 H1 H2 l.
  assert (H : P l /\ forall a, P (a :: l)).
  { induction l as [| b l [IH1 IH2]]; split; auto. }
  exact (proj1 H).
Qed.

Lemma wrap16_range (z : Z) : (-32768 <= wrap16 z <= 32767)%Z.
Proof.
  unfold wrap16.
  pose proof (Z.mod_pos_bound (z + 32768) 65536 eq_refl). lia.
Qed.

Lemma Int16_view_spec (data : list Z) :
  match Pcm.Int16_view data with
  | None => Nat.odd (List.length data) = true
  | Some samples =>
      Nat.odd (List.length data) = false
      /\ List.length data = (2 * List.length samples)%nat
      /\ Forall (fun v => (-32768 <= v <= 32767)%Z) samples
  end.
Proof.
  induction data as [| a | a b l IH] using pairs_ind;
    [repeat split; constructor | reflexivity |].
  cbn [Pcm.Int16_view]. destruct (Pcm.Int16_view l) as [samples |].
  - destruct IH as (O & L & F).
    split; [exact O |]. split; [cbn [List.length]; lia |].
    constructor; [apply wrap16_range | exact F].
  - exact IH.
Qed.

Lemma decode_sample_range (v : Z) :
  (-32768 <= v <= 32767)%Z ->
  exists q, Pcm.decode_sample v = Fin q /\ -1 <= q /\ q < 1.
Proof.
  intros H. exists (inject_Z v / 32768). split; [reflexivity |].
  unfold Qdiv. change (/ 32768) with (1 # 32768).
  assert (L : inject_Z (-32768) <= inject_Z v) by (rewrite <- Zle_Qle; lia).
  assert (U : inject_Z v < inject_Z 32768) by (rewrite <- Zlt_Qlt; lia).
  change (inject_Z (-32768)) with (-32768) in L.
  change (inject_Z 32768) with 32768 in U.
  split; lra.
Qed.

(** X3.  [decodeAudioData] fails exactly on an empty chunk and on a chunk
    of odd length.  When it succeeds the buffer has one sample for every two
    bytes, every sample is a finite number in [-1, 1), and the duration is
    the number of bytes over 48000 seconds. *)
Theorem decodeAudioData_result (data : list Z) :
  (decodeAudioData data = None
   <-> data = [] \/ Nat.odd (List.length data) = true)
  /\ forall buffer,
       decodeAudioData data = Some buffer ->
       List.length data = (2 * List.length buffer)%nat
       /\ Forall (fun x => exists q, x = Fin q /\ -1 <= q /\ q < 1) buffer
       /\ duration buffer == inject_Z (Z.of_nat (List.length data)) / 48000.
Proof.
  unfold decodeAudioData. pose proof (Int16_view_spec data) as V.
  destruct (Pcm.Int16_view data) as [samples |].
  - destruct V as (O & L & F). split.
    + destruct samples as [| v samples]; cbn [map].
      * split; [intros _; left | reflexivity].
        destruct data; [reflexivity | discriminate].
      * split; [discriminate |]. intros [-> | C]; [discriminate | congruence].
    + intros buffer E.
      assert (B : buffer = map Pcm.decode_sample samples).
      { destruct samples; [discriminate | now injection E]. }
      subst buffer. rewrite length_map. split; [exact L |]. split.
      * apply Forall_forall. intros x Hx. apply in_map_iff in Hx.
        destruct Hx as (v & <- & Hv). apply decode_sample_range.
        exact (proj1 (Forall_forall _ _) F v Hv).
      * unfold duration. rewrite length_map, L.
        rewrite Nat2Z.inj_mul, inject_Z_mult. change (inject_Z (Z.of_nat 2)) with 2.
        field.
  - split; [split; [intros _; right; exact V | reflexivity] | discriminate].
Qed.

Lemma decodeAudioData_result_witness :
  decodeAudioData [0; 128; 255; 127]%Z
  = Some [Fin (inject_Z (-32768) / 32768); Fin (inject_Z 32767 / 32768)]
  /\ duration [Fin (inject_Z (-32768) / 32768); Fin (inject_Z 32767 / 32768)]
     == inject_Z 4 / 48000.
Proof.
  assert (E : decodeAudioData [0; 128; 255; 127]%Z
              = Some [Fin (inject_Z (-32768) / 32768);
                      Fin (inject_Z 32767 / 32768)]) by reflexivity.
  split; [exact E |].
  exact (proj2 (proj2 (proj2 (decodeAudioData_result _) _ E))).
Defined.



End ScheduleFacts.

(** ** Sessions of [VoiceNotesApp] *)
Section SessionProperties.

Import VoiceNotesApp.

(** X5.  While the audio handler is installed and the session promise
    exists, every frame is sent as one chunk tagged [audio/pcm;rate=16000],
    in the order of arrival, and nothing else is added to the record. *)
Theorem frames_are_forwarded_in_order (s : app) (frames : list (list number)) :
  onaudioprocess s = true -> sessionPromise s = true ->
  effects (run s (map AudioProcess frames))
  = effects s ++ map chunk_of_frame frames.
Proof.
  revert s. induction frames as [| f rest IH]; intros s A P.
  - cbn. now rewrite app_nil_r.
  - cbn [map]. rewrite run_cons.
    assert (E : handle s (AudioProcess f) = emit (chunk_of_frame f) s).
    { cbn [handle]. rewrite A. unfold audioprocess. now rewrite P. }
    rewrite E, IH by (unfold emit; cbn [onaudioprocess sessionPromise set_effects];
                      assumption).
    unfold emit. cbn [effects set_effects]. now rewrite <- app_assoc.
Qed.

Lemma frames_are_forwarded_in_order_witness :
  let s := run (startLiveSession mic_transcribing initial) [Open] in
  let frames := [[Fin (1 # 4); Fin (-1)]; [Fin 1]] in
  onaudioprocess s = true /\ sessionPromise s = true
  /\ effects (run s (map AudioProcess frames))
     = effects s ++ map chunk_of_frame frames.
Proof.
  intros s frames.
  assert (A : onaudioprocess s = true) by reflexivity.
  assert (P : sessionPromise s = true) by reflexivity.
  split; [exact A |]. split; [exact P |].
  exact (frames_are_forwarded_in_order s frames A P).
Defined.


Lemma playback_ensureInterimSpan (s : app) :
  playback (ensureInterimSpan s) = playback s.
Proof. unfold ensureInterimSpan. split_cases; reflexivity. Qed.




(** X9.  A close or an error of the connection only takes the live display
    down (and, for an error, writes the status line): the recording flag,
    the stream and the audio handler stay as they were, so that the frames
    that follow are still sent, and nothing reconnects. *)
Theorem closed_connection_keeps_streaming (s : app) (e : event)
    (inputData : list number) :
  e = Close \/ e = ConnectionError ->
  onaudioprocess s = true -> sessionPromise s = true ->
  let s1 := handle s e in
  let s2 := handle s1 (AudioProcess inputData) in
  is_live s1 = false /\ isRecording s1 = isRecording s
  /\ stream s1 = stream s /\ onaudioprocess s1 = true
  /\ actions s1 = actions s
  /\ realtime_inputs s2 = realtime_inputs s ++ [chunk_of_frame inputData].
Proof.
  intros [-> | ->] A P; cbv zeta; cbn [handle]; rewrite P;
    unfold onclose, onconnectionerror; fields; rewrite A;
    unfold audioprocess; fields; rewrite P;
    unfold actions, realtime_inputs; fields;
    rewrite !filter_app; cbn [filter is_action is_realtime_input chunk_of_frame];
    rewrite ?app_nil_r; repeat split.
Qed.

Lemma closed_connection_keeps_streaming_witness :
  let s := run (startLiveSession mic_transcribing initial) [Open] in
  let s2 := run s [Close; AudioProcess [Fin (1 # 2)]] in
  onaudioprocess s = true
  /\ realtime_inputs s2 = realtime_inputs s ++ [chunk_of_frame [Fin (1 # 2)]].
Proof.
  intros s s2.
  assert (A : onaudioprocess s = true) by reflexivity.
  split; [exact A |].
  exact (proj2 (proj2 (proj2 (proj2 (proj2
    (closed_connection_keeps_streaming s Close [Fin (1 # 2)]
       (or_introl eq_refl) A eq_refl)))))).
Defined.

End SessionProperties.

(** ** The highlight and the inbound messages of the live session *)
Section LiveMessages.

Lemma actives_app (l m : list node) : actives (l ++ m) = actives l ++ actives m.
Proof.
  induction l as [| [t a | i t] rest IH]; cbn [List.app actives];
    [reflexivity | now rewrite IH | exact IH].
Qed.

Lemma actives_rev (l : list node) : actives (rev l) = rev (actives l).
Proof.
  induction l as [| [t a | i t] rest IH]; cbn [rev actives];
    rewrite ?actives_app, ?IH; cbn [actives]; [reflexivity | reflexivity |].
  apply app_nil_r.
Qed.

Lemma actives_mark_last_rev (l : list node) :
  actives (mark_last_rev l)
  = match actives l with [] => [] | _ :: rest => true :: rest end.
Proof.
  induction l as [| [t a | i t] rest IH]; cbn [mark_last_rev actives];
    [reflexivity | reflexivity | exact IH].
Qed.

Lemma length_mark_last_rev (l : list node) :
  length (mark_last_rev l) = length l.
Proof.
  induction l as [| [t a | i t] rest IH]; cbn [mark_last_rev length];
    [reflexivity | reflexivity | now rewrite IH].
Qed.

Lemma actives_clear_active (l : list node) :
  actives (map clear_active l) = repeat false (length (segments l)).
Proof.
  induction l as [| [t a | i t] rest IH];
    cbn [map clear_active actives segments length repeat];
    [reflexivity | now rewrite IH | exact IH].
Qed.

Lemma rev_repeat_same (A : Type) (x : A) (n : nat) :
  rev (repeat x n) = repeat x n.
Proof.
  induction n as [| n IH]; [reflexivity |].
  cbn [repeat rev]. rewrite IH. symmetry. apply repeat_cons.
Qed.

Lemma no_segment_nil (l : list node) :
  existsb is_segment l = false -> segments l = [] /\ actives l = [].
Proof.
  induction l as [| [t a | i t] rest IH]; cbn [existsb is_segment orb];
    [now split | discriminate | exact IH].
Qed.

Lemma some_segment_cons (l : list node) :
  existsb is_segment l = true -> exists k, length (segments l) = S k.
Proof.
  induction l as [| [t a | i t] rest IH]; cbn [existsb is_segment orb segments];
    [discriminate | | exact IH].
  intros _. now exists (length (segments rest)).
Qed.

(** X10.  [highlightActiveSegment] changes no text and no position in the
    raw pane and leaves the interim span where it is; afterwards the last
    finalized segment is highlighted and no other one is. *)
Theorem highlight_marks_exactly_the_last (s : app) :
  let s' := highlightActiveSegment s in
  finalized s' = finalized s
  /\ rawInterimSpan s' = rawInterimSpan s
  /\ length (children (rawTranscription s'))
     = length (children (rawTranscription s))
  /\ actives (children (rawTranscription s'))
     = match length (finalized s) with
       | O => []
       | S k => repeat false k ++ [true]
       end.
Proof.
  cbv zeta. unfold highlightActiveSegment, finalized.
  destruct (existsb is_segment (children (rawTranscription s))) eqn:E.
  - cbn [rawTranscription rawInterimSpan set_rawTranscription children].
    split; [now rewrite segments_mark_last, segments_clear_active |].
    split; [reflexivity |].
    split; [unfold mark_last;
            now rewrite length_rev, length_mark_last_rev, length_rev,
              length_map |].
    destruct (some_segment_cons _ E) as [k Hk]. rewrite Hk.
    unfold mark_last.
    rewrite actives_rev, actives_mark_last_rev, actives_rev,
      actives_clear_active, Hk, rev_repeat_same.
    cbn [repeat rev]. now rewrite rev_repeat_same.
  - destruct (no_segment_nil _ E) as [-> ->]. now repeat split.
Qed.

Variable atob : jsstring -> option (list Z).

Lemma audio_path_fields (a b : app) :
  audio_path a = audio_path b ->
  outputAudioContext a = outputAudioContext b
  /\ outputGainNode a = outputGainNode b
  /\ nextStartTime a = nextStartTime b
  /\ selectedSourceType a = selectedSourceType b /\ closure a = closure b
  /\ effects a = effects b.
Proof.
  unfold audio_path, Live.scheduler_of. intros [= -> -> -> -> -> ->].
  repeat split.
Qed.

Lemma audio_path_scheduler (a b : app) :
  audio_path a = audio_path b -> Live.scheduler_of a = Live.scheduler_of b.
Proof. intros H. exact (f_equal (fun p => fst (fst (fst p))) H). Qed.

Lemma audio_path_ensureInterimSpan (s : app) :
  audio_path (ensureInterimSpan s) = audio_path s.
Proof. unfold ensureInterimSpan. split_cases; reflexivity. Qed.

Lemma audio_path_highlightActiveSegment (s : app) :
  audio_path (highlightActiveSegment s) = audio_path s.
Proof. unfold highlightActiveSegment. split_cases; reflexivity. Qed.

Lemma audio_path_appendTranslatedText (text : jsstring) (s : app) :
  audio_path (appendTranslatedText text s) = audio_path s.
Proof. unfold appendTranslatedText. split_cases; reflexivity. Qed.

Lemma audio_path_appendRawSegment (text : jsstring) (s : app) :
  audio_path (appendRawSegment text s) = audio_path s.
Proof.
  unfold appendRawSegment. split_cases;
    rewrite ?audio_path_ensureInterimSpan; reflexivity.
Qed.

Lemma playback_highlightActiveSegment (s : app) :
  playback (highlightActiveSegment s) = playback s.
Proof. unfold highlightActiveSegment. split_cases; reflexivity. Qed.

Lemma playback_appendRawSegment (text : jsstring) (s : app) :
  playback (appendRawSegment text s) = playback s.
Proof.
  unfold appendRawSegment. split_cases;
    rewrite ?playback_ensureInterimSpan; reflexivity.
Qed.

Lemma translatedContent_playback (a b : app) :
  playback a = playback b -> translatedContent a = translatedContent b.
Proof. unfold playback. now intros [= _ -> _]. Qed.

(** The audio stage of [playAudioChunk] on the application object is the
    scheduler of the playback model; it touches no pane. *)
Lemma playAudioChunk_stage (now : number) (data : jsstring) (s : app) :
  let r := Live.playAudioChunk atob now data s in
  (Live.scheduler_of (fst r), snd r)
  = Playback.playAudioChunk (Live.scheduler_of s) now (atob data)
  /\ selectedSourceType (fst r) = selectedSourceType s
  /\ closure (fst r) = closure s
  /\ panes (fst r) = panes s
  /\ translatedContent (fst r) = translatedContent s
  /\ actions (fst r) = actions s.
Proof.
  cbv zeta. unfold Live.playAudioChunk, Playback.playAudioChunk, Live.scheduler_of.
  cbn [Playback.outputAudioContext Playback.outputGainNode
       Playback.nextStartTime].
  split_cases; cbn [fst snd]; fields; unfold actions; fields;
    rewrite ?filter_app; cbn [filter is_action]; rewrite ?app_nil_r;
    repeat split.
Qed.

Lemma audio_stage_facts (now : number) (m : Live.message) (s : app) :
  let r := Live.audio_stage atob now m s in
  (Live.scheduler_of (fst r), snd r)
  = match Live.audioData m with
    | Some data =>
        if truthy data
        then Playback.playAudioChunk (Live.scheduler_of s) now (atob data)
        else (Live.scheduler_of s, None)
    | None => (Live.scheduler_of s, None)
    end
  /\ selectedSourceType (fst r) = selectedSourceType s
  /\ closure (fst r) = closure s
  /\ translatedContent (fst r) = translatedContent s
  /\ actions (fst r) = actions s
  /\ (selectedSourceType s = mic -> panes (fst r) = panes s)
  /\ (interim_last s ->
      interim_last (fst r) /\ finalized (fst r) = finalized s).
Proof.
  cbv zeta. unfold Live.audio_stage.
  destruct (Live.audioData m) as [data |];
    [destruct (truthy data) |]; cbn [fst snd]; try now repeat split.
  match goal with
  | |- context [Live.playAudioChunk atob now data ?x] =>
      remember x as s' eqn:E
  end.
  assert (F : audio_path s' = audio_path s /\ playback s' = playback s
              /\ actions s' = actions s
              /\ (selectedSourceType s = mic -> panes s' = panes s)
              /\ (interim_last s ->
                  interim_last s' /\ finalized s' = finalized s)).
  { subst s'. destruct (selectedSourceType s) eqn:S;
      cbn [source_eqb]; rewrite ?andb_false_r, ?andb_true_r;
      [now repeat split |].
    destruct (isTranslationMode (closure s)); [| now repeat split].
    split; [apply audio_path_highlightActiveSegment |].
    split; [apply playback_highlightActiveSegment |].
    split; [unfold actions; f_equal;
            apply (control_fields _ _ (control_highlightActiveSegment s)) |].
    split; [discriminate | apply highlightActiveSegment_tidy]. }
  clear E. destruct F as (A & P & C & M & I).
  destruct (audio_path_fields _ _ A) as (_ & _ & _ & S & K & _).
  destruct (playAudioChunk_stage now data s') as (R1 & R2 & R3 & R4 & R5 & R6).
  split.
  { rewrite R1. f_equal. exact (audio_path_scheduler _ _ A). }
  split; [congruence |]. split; [congruence |].
  split; [rewrite R5; exact (translatedContent_playback _ _ P) |].
  split; [congruence |].
  split; [intros H; rewrite R4; exact (M H) |].
  intros H. destruct (I H) as [I1 I2].
  split; [exact (interim_last_panes _ _ R4 I1) |].
  rewrite (finalized_panes _ _ R4). exact I2.
Qed.

Lemma when_present_translated (o : option jsstring) (s : app) :
  let s' := Live.when_present o appendTranslatedText s in
  audio_path s' = audio_path s /\ panes s' = panes s
  /\ actions s' = actions s
  /\ translatedContent s'
     = translatedContent s ++ (if Live.present o then Live.shown o else []).
Proof.
  cbv zeta. unfold Live.when_present, Live.present, Live.shown.
  destruct o as [t |]; [destruct (truthy t) eqn:T |];
    try (repeat split; symmetry; apply app_nil_r).
  split; [apply audio_path_appendTranslatedText |].
  split; [apply appendTranslatedText_panes |].
  split; [unfold actions; f_equal;
          apply (control_fields _ _ (control_appendTranslatedText t s)) |].
  unfold appendTranslatedText. rewrite T. reflexivity.
Qed.

Lemma when_present_heard (m : Live.message) (s : app) :
  let s' := Live.when_present (Live.inputTranscription m) appendRawSegment s in
  audio_path s' = audio_path s /\ playback s' = playback s
  /\ actions s' = actions s
  /\ (interim_last s ->
      interim_last s' /\ finalized s' = finalized s ++ Live.heard m).
Proof.
  cbv zeta. unfold Live.when_present, Live.heard.
  destruct (Live.inputTranscription m) as [t |]; [destruct (truthy t) eqn:T |].
  - split; [apply audio_path_appendRawSegment |].
    split; [apply playback_appendRawSegment |].
    split; [unfold actions; f_equal;
            apply (control_fields _ _ (control_appendRawSegment t s)) |].
    intros I. destruct (blank t) eqn:B.
    + rewrite (appendRawSegment_blank t s B).
      split; [exact I | symmetry; apply app_nil_r].
    + destruct (appendRawSegment_tidy t s I B) as (I1 & I2 & _).
      split; assumption.
  - apply truthy_false_iff in T. subst t. cbn [blank forallb].
    repeat split; try assumption. symmetry; apply app_nil_r.
  - repeat split; try assumption. symmetry; apply app_nil_r.
Qed.

Lemma text_stage_system (m : Live.message) (s : app) :
  selectedSourceType s = system ->
  audio_path (Live.text_stage m s) = audio_path s
  /\ actions (Live.text_stage m s) = actions s
  /\ translatedContent (Live.text_stage m s)
     = translatedContent s ++ Live.shown (Live.translated_text m)
  /\ (interim_last s ->
      interim_last (Live.text_stage m s)
      /\ finalized (Live.text_stage m s) = finalized s ++ Live.heard m).
Proof.
  intros S. unfold Live.text_stage. rewrite S. cbv zeta.
  destruct (when_present_heard m s) as (A2 & P2 & C2 & I2).
  remember (Live.when_present (Live.inputTranscription m) appendRawSegment s)
    as s2 eqn:E2. clear E2.
  destruct (when_present_translated (Live.outputTranscription m) s2)
    as (A3 & P3 & C3 & T3).
  remember (Live.when_present (Live.outputTranscription m)
              appendTranslatedText s2) as s3 eqn:E3. clear E3.
  destruct (when_present_translated (Live.textPart m) s3)
    as (A4 & P4 & C4 & T4).
  pose proof (translatedContent_playback _ _ P2) as T2.
  unfold Live.translated_text.
  destruct (Live.present (Live.outputTranscription m)); cbn [negb].
  - split; [congruence |]. split; [congruence |].
    split; [congruence |]. intros I. destruct (I2 I) as [J1 J2].
    split; [exact (interim_last_panes _ _ P3 J1) |].
    rewrite (finalized_panes _ _ P3). exact J2.
  - rewrite app_nil_r in T3.
    split; [congruence |]. split; [congruence |].
    split.
    { rewrite T4, T3, T2.
      destruct (Live.present (Live.textPart m)); reflexivity. }
    intros I. destruct (I2 I) as [J1 J2].
    split; [exact (interim_last_panes _ _ P4 (interim_last_panes _ _ P3 J1)) |].
    rewrite (finalized_panes _ _ P4), (finalized_panes _ _ P3). exact J2.
Qed.

(** X11.  When the microphone is the source, a message of the live session
    writes nothing: both panes and every action taken so far stay as they
    were, whatever texts the message carries; only its audio is handled. *)
Theorem mic_source_ignores_live_text (now : number) (m : Live.message) (s : app) :
  selectedSourceType s = mic ->
  let s' := fst (Live.handleLiveMessage atob now m s) in
  panes s' = panes s /\ translatedContent s' = translatedContent s
  /\ actions s' = actions s.
Proof.
  intros S. cbv zeta. unfold Live.handleLiveMessage.
  destruct (audio_stage_facts now m s) as (_ & S1 & _ & T & C & P & _).
  destruct (Live.audio_stage atob now m s) as [s1 out]. cbn [fst snd] in *.
  unfold Live.text_stage. rewrite S1, S. auto.
Qed.

(** X12.  When the system audio is the source and the raw pane is tidy, a
    message of the live session appends its input transcription to the
    finalized segments unless it is blank, and appends one text to the
    translated pane: the output transcription, else the first text part
    of the model turn, else nothing.  The raw pane stays tidy and no action
    is taken. *)
Theorem system_source_renders_live_text (now : number) (m : Live.message)
    (s : app) :
  selectedSourceType s = system -> interim_last s ->
  let s' := fst (Live.handleLiveMessage atob now m s) in
  interim_last s'
  /\ finalized s' = finalized s ++ Live.heard m
  /\ translatedContent s'
     = translatedContent s ++ Live.shown (Live.translated_text m)
  /\ actions s' = actions s.
Proof.
  intros S I. cbv zeta. unfold Live.handleLiveMessage.
  destruct (audio_stage_facts now m s) as (_ & S1 & _ & T & C & _ & P).
  destruct (Live.audio_stage atob now m s) as [s1 out]. cbn [fst snd] in *.
  destruct (P I) as [I1 F1]. rewrite S in S1.
  destruct (text_stage_system m s1 S1) as (_ & C4 & T4 & I4).
  destruct (I4 I1) as [J1 J2].
  split; [exact J1 |]. split; [congruence |]. split; congruence.
Qed.

(** The scheduler after a message and the call it made are those of the
    playback model on the audio of the message. *)
Lemma handleLiveMessage_scheduler (now : number) (m : Live.message) (s : app) :
  let r := Live.handleLiveMessage atob now m s in
  (Live.scheduler_of (fst r), snd r)
  = match Live.audioData m with
    | Some data =>
        if truthy data
        then Playback.playAudioChunk (Live.scheduler_of s) now (atob data)
        else (Live.scheduler_of s, None)
    | None => (Live.scheduler_of s, None)
    end.
Proof.
  cbv zeta. unfold Live.handleLiveMessage.
  destruct (audio_stage_facts now m s) as (R & S1 & _).
  destruct (Live.audio_stage atob now m s) as [s1 out]. cbn [fst snd] in *.
  rewrite <- R. f_equal.
  destruct (selectedSourceType s1) eqn:S.
  - unfold Live.text_stage. rewrite S. reflexivity.
  - exact (audio_path_scheduler _ _ (proj1 (text_stage_system m s1 S))).
Qed.

(** X13.  The calls [source.start] that a run of live messages makes, and
    the cursor it leaves, are those of the scheduler run on the audio
    chunks of the messages in arrival order: texts, highlights and failed
    chunks in between change nothing of the schedule. *)
Theorem live_audio_follows_the_scheduler (messages : list (number * Live.message))
    (s : app) :
  snd (Live.receive atob messages s)
  = map Playback.call
      (fst (Playback.play_all (Live.scheduler_of s)
              (Live.audio_chunks atob messages)))
  /\ Live.scheduler_of (fst (Live.receive atob messages s))
     = snd (Playback.play_all (Live.scheduler_of s)
              (Live.audio_chunks atob messages)).
Proof.
  revert s. induction messages as [| [now m] rest IH]; intros s.
  - split; reflexivity.
  - cbn [Live.receive]. unfold Live.audio_chunks. cbn [flat_map fst snd].
    fold (Live.audio_chunks atob rest).
    pose proof (handleLiveMessage_scheduler now m s) as H. cbv zeta in H.
    destruct (Live.handleLiveMessage atob now m s) as [s1 out].
    cbn [fst snd] in H. specialize (IH s1).
    destruct (Live.receive atob rest s1) as [s2 calls]. cbn [fst snd] in *.
    destruct IH as [IH1 IH2].
    destruct (Live.audioData m) as [data |];
      [destruct (truthy data) |]; cbn [List.app Playback.play_all].
    + destruct (Playback.playAudioChunk (Live.scheduler_of s) now (atob data))
        as [st o].
      apply pair_equal_spec in H as [H1 H2]. rewrite H1 in IH1, IH2. subst out.
      destruct (Playback.play_all st (Live.audio_chunks atob rest))
        as [log final]. cbn [fst snd] in *.
      destruct o; cbn [map Playback.call]; split; congruence.
    + apply pair_equal_spec in H as [H1 H2]. rewrite H1 in IH1, IH2. subst out.
      split; assumption.
    + apply pair_equal_spec in H as [H1 H2]. rewrite H1 in IH1, IH2. subst out.
      split; assumption.
Qed.










End LiveMessages.

Lemma mic_source_ignores_live_text_witness :
  let m :=
    Live.mkMessage (Some [Live.mkPart None (Some (js "bonjour"))])
      (Some (js "hello")) (Some (js "bonjour")) in
  selectedSourceType initial = mic
  /\ translatedContent
       (fst (Live.handleLiveMessage (fun _ => None) (Fin 0) m initial))
     = translatedContent initial.
Proof.
  intros m. split; [reflexivity |].
  exact (proj1 (proj2
    (mic_source_ignores_live_text (fun _ => None) (Fin 0) m initial eq_refl))).
Defined.

Lemma system_source_renders_live_text_witness :
  let s := reset_panes (set_selectedSourceType system initial) in
  let m := Live.mkMessage None (Some (js "hello")) (Some (js "bonjour")) in
  let s' := fst (Live.handleLiveMessage (fun _ => None) (Fin 0) m s) in
  selectedSourceType s = system
  /\ finalized s' = finalized s ++ [js "hello "]
  /\ translatedContent s'
     = translatedContent s ++ [Rendered (js "bonjour"); TextNode (js " ")].
Proof.
  intros s m s'.
  assert (S : selectedSourceType s = system) by reflexivity.
  split; [exact S |].
  destruct (system_source_renders_live_text (fun _ => None) (Fin 0) m s S
              (proj1 (reset_panes_tidy _))) as (_ & F & T & _).
  split; [exact F | exact T].
Defined.

(** ** Page helpers *)
Section PageHelpers.

Import Ui.

Local Open Scope Z_scope.

Lemma padStart2_two_digits (n : Z) :
  0 <= n < 100 -> padStart2 (String_of_Z n) = two_digits n.
Proof.
  intros H.
  assert (A : forallb
                (fun k => Js.eqb (padStart2 (String_of_Z (Z.of_nat k)))
                            (two_digits (Z.of_nat k)))
                (seq 0 100) = true) by (vm_compute; reflexivity).
  rewrite forallb_forall in A. specialize (A (Z.to_nat n)).
  rewrite Z2Nat.id in A by lia. apply eqb_eq, A, in_seq. lia.
Qed.

(** X15.  While a recording is younger than one hundred minutes, the timer
    shows the elapsed time as [mm:ss.hh], two decimal digits each, with
    seconds below 60 and the time truncated, never rounded, to the
    hundredth of a second. *)
Theorem timer_shows_elapsed_time (now recordingStartTime : Z)
    (textContent : jsstring) :
  recordingStartTime <= now < recordingStartTime + 6000000 ->
  let '(m, s, h) := timer_fields (now - recordingStartTime) in
  0 <= m < 100 /\ 0 <= s < 60 /\ 0 <= h < 100
  /\ 0 <= (now - recordingStartTime) - (60000 * m + 1000 * s + 10 * h) < 10
  /\ updateLiveTimer true true now recordingStartTime textContent
     = two_digits m ++ js ":" ++ two_digits s ++ js "." ++ two_digits h.
Proof.
  intros H. unfold updateLiveTimer, timer_text. cbn [negb orb].
  unfold timer_fields. cbv beta iota zeta.
  set (e := now - recordingStartTime). assert (E : 0 <= e < 6000000) by lia.
  clearbody e. clear H.
  rewrite !Z.rem_mod_nonneg by (try lia; apply Z.div_pos; lia).
  assert (M : 0 <= e / 1000 / 60 < 100)
    by (split; [apply Z.div_pos; [apply Z.div_pos |]; lia
               | apply Z.div_lt_upper_bound; [lia |];
                 apply Z.div_lt_upper_bound; lia]).
  assert (S : 0 <= (e / 1000) mod 60 < 60) by (apply Z.mod_pos_bound; lia).
  assert (T : 0 <= e mod 1000 < 1000) by (apply Z.mod_pos_bound; lia).
  assert (D : 0 <= e mod 1000 / 10 < 100)
    by (split; [apply Z.div_pos; lia | apply Z.div_lt_upper_bound; lia]).
  split; [exact M |]. split; [exact S |]. split; [exact D |].
  split.
  - pose proof (Z.div_mod e 1000). pose proof (Z.div_mod (e / 1000) 60).
    pose proof (Z.div_mod (e mod 1000) 10).
    pose proof (Z.mod_pos_bound (e mod 1000) 10). lia.
  - rewrite (padStart2_two_digits _ M), (padStart2_two_digits _ D).
    now rewrite (padStart2_two_digits ((e / 1000) mod 60)) by lia.
Qed.

Lemma timer_shows_elapsed_time_witness :
  1000000 <= 1061230 < 1000000 + 6000000
  /\ updateLiveTimer true true 1061230 1000000 (js "00:00.00") = js "01:01.23".
Proof.
  assert (H : 1000000 <= 1061230 < 1000000 + 6000000) by lia.
  split; [exact H |].
  exact (proj2 (proj2 (proj2 (proj2
    (timer_shows_elapsed_time 1061230 1000000 (js "00:00.00") H))))).
Defined.

(** X16.  The theme survives a reload: what [toggleTheme] saves is what
    [initTheme] restores.  After either method the toggle shows exactly
    one icon, the moon in light mode and the sun in dark mode, and two
    toggles bring the mode back. *)
Theorem theme_is_restored (t : theme) :
  initTheme (toggleTheme t) = toggleTheme t
  /\ light_mode (toggleTheme t) = negb (light_mode t)
  /\ light_mode (toggleTheme (toggleTheme t)) = light_mode t
  /\ (forall t', t' = initTheme t \/ t' = toggleTheme t ->
      fa_moon t' = light_mode t' /\ fa_sun t' = negb (light_mode t')).
Proof.
  split; [| split; [| split]].
  - unfold toggleTheme, initTheme. destruct (light_mode t); reflexivity.
  - unfold toggleTheme. destruct (light_mode t); reflexivity.
  - unfold toggleTheme. destruct (light_mode t); reflexivity.
  - intros t' [-> | ->]; unfold initTheme, toggleTheme.
    + destruct (saved t) as [v |]; [destruct (Js.eqb v (js "light")) |];
        now split.
    + destruct (light_mode t); now split.
Qed.

Local Close Scope Z_scope.

Lemma fold_add_options (l : list device) (acc : select) :
  options (fold_left (fun acc d => add (option_of_device d acc) acc) l acc)
  = options acc
    ++ map listed (combine (seq (length (options acc)) (length l)) l).
Proof.
  revert acc. induction l as [| d rest IH]; intros acc.
  - cbn [fold_left length seq combine map]. symmetry. apply app_nil_r.
  - cbn [fold_left length seq combine map]. rewrite IH.
    unfold add. cbn [options]. rewrite length_app, <- app_assoc.
    cbn [length List.app]. rewrite Nat.add_1_r. reflexivity.
Qed.

Lemma fold_add_selected (l : list device) (acc : select) :
  selectedIndex
    (fold_left (fun acc d => add (option_of_device d acc) acc) l acc)
  = match selectedIndex acc with
    | Some i => Some i
    | None => match l with [] => None | _ :: _ => Some O end
    end.
Proof.
  revert acc. induction l as [| d rest IH]; intros acc.
  - cbn [fold_left]. now destruct (selectedIndex acc).
  - cbn [fold_left]. rewrite IH. unfold add. cbn [selectedIndex].
    now destruct (selectedIndex acc).
Qed.

Lemma index_of_found (v : jsstring) (l : list option_element) :
  existsb (fun o => Js.eqb (value o) v) l = true ->
  exists i o, index_of v l = Some i /\ nth_error l i = Some o /\ value o = v.
Proof.
  induction l as [| o rest IH]; cbn [existsb index_of]; [discriminate |].
  destruct (Js.eqb (value o) v) eqn:E.
  - intros _. exists O, o. apply eqb_eq in E. now repeat split.
  - cbn [orb]. intros H. destruct (IH H) as (i & o' & -> & N & V).
    exists (S i), o'. now repeat split.
Qed.

(** The list [populateAudioDevices] builds before it restores the
    selection. *)
Lemma filled_list (inputs : list device) :
  let filled :=
    if (length inputs =? 0)%nat then add default_microphone (mkSelect [] None)
    else fold_left (fun acc d => add (option_of_device d acc) acc) inputs
           (mkSelect [] None) in
  options filled
  = match inputs with
    | [] => [default_microphone]
    | _ :: _ => map listed (combine (seq 0 (length inputs)) inputs)
    end
  /\ selectedIndex filled = Some O.
Proof.
  cbv zeta. destruct inputs as [| d rest].
  - split; reflexivity.
  - cbn [length Nat.eqb]. rewrite fold_add_options, fold_add_selected.
    split; reflexivity.
Qed.

(** X17.  When the devices can be enumerated, the microphone list is
    rebuilt with one option for every audio input, in the order of the
    enumeration, named by its label or else [Microphone k] with [k] its
    position counted from 1; with no audio input the list is the single
    option [Default Microphone].  The microphone chosen before stays
    chosen when it is still listed, otherwise the first option is. *)
Theorem device_list_after_enumeration (devices : list device) (sel : select) :
  let inputs := filter is_audioinput devices in
  let r := populateAudioDevices (Some devices) sel in
  options r
  = match inputs with
    | [] => [default_microphone]
    | _ :: _ => map listed (combine (seq 0 (length inputs)) inputs)
    end
  /\ select_value r
     = if existsb (fun o => Js.eqb (value o) (select_value sel)) (options r)
       then select_value sel
       else match options r with o :: _ => value o | [] => [] end.
Proof.
  cbv zeta. unfold populateAudioDevices. cbv zeta.
  destruct (filled_list (filter is_audioinput devices)) as [O S].
  cbv zeta in O, S.
  remember (if (length (filter is_audioinput devices) =? 0)%nat
            then add default_microphone (mkSelect [] None)
            else fold_left (fun acc d => add (option_of_device d acc) acc)
                   (filter is_audioinput devices) (mkSelect [] None))
    as filled eqn:E.
  clear E.
  destruct (existsb (fun o => Js.eqb (value o) (select_value sel))
              (options filled)) eqn:H.
  - unfold set_value. cbn [options]. rewrite H. split; [exact O |].
    destruct (index_of_found _ _ H) as (i & o & I & N & V).
    unfold select_value at 1. cbn [selectedIndex options]. now rewrite I, N.
  - rewrite H. split; [exact O |].
    unfold select_value at 1. rewrite S. now destruct (options filled).
Qed.

Lemma index_of_bound (v : jsstring) (l : list option_element) (i : nat) :
  index_of v l = Some i -> (i < length l)%nat.
Proof.
  revert i. induction l as [| o rest IH]; intros i; cbn [index_of length];
    [discriminate |].
  destruct (Js.eqb (value o) v); [intros [= <-]; lia |].
  destruct (index_of v rest) as [j |]; [| discriminate].
  intros [= <-]. specialize (IH j eq_refl). lia.
Qed.

Lemma device_list_facts (devices : list device) (sel : select) :
  well_formed (populateAudioDevices (Some devices) sel) = true
  /\ options (populateAudioDevices (Some devices) sel) <> [].
Proof.
  unfold populateAudioDevices. cbv zeta.
  destruct (filled_list (filter is_audioinput devices)) as [O S].
  cbv zeta in O, S.
  remember (if (length (filter is_audioinput devices) =? 0)%nat
            then add default_microphone (mkSelect [] None)
            else fold_left (fun acc d => add (option_of_device d acc) acc)
                   (filter is_audioinput devices) (mkSelect [] None))
    as filled eqn:E.
  clear E.
  assert (N : options filled <> []).
  { rewrite O. destruct (filter is_audioinput devices); discriminate. }
  destruct (existsb (fun o => Js.eqb (value o) (select_value sel))
              (options filled)) eqn:H.
  - split; [| exact N]. unfold set_value, well_formed.
    cbn [options selectedIndex].
    destruct (index_of_found _ _ H) as (i & o & I & _).
    rewrite I. apply Nat.ltb_lt. exact (index_of_bound _ _ _ I).
  - split; [| exact N]. unfold well_formed. rewrite S.
    apply Nat.ltb_lt. destruct (options filled); [contradiction |].
    cbn [length]. lia.
Qed.

(** X18.  Whatever the answer of [enumerateDevices], and also when it
    fails, a well formed microphone list stays well formed and is never
    left empty: there is always an option to record with and one of the
    options is selected. *)
Theorem device_list_is_never_empty (enumerated : option (list device))
    (sel : select) :
  well_formed sel = true ->
  let r := populateAudioDevices enumerated sel in
  well_formed r = true /\ options r <> []
  /\ exists i o, selectedIndex r = Some i /\ nth_error (options r) i = Some o.
Proof.
  intros W. cbv zeta.
  assert (G : forall r, well_formed r = true -> options r <> [] ->
              well_formed r = true /\ options r <> []
              /\ exists i o, selectedIndex r = Some i
                             /\ nth_error (options r) i = Some o).
  { intros r Wr Nr. split; [exact Wr |]. split; [exact Nr |].
    unfold well_formed in Wr. destruct (selectedIndex r) as [i |].
    - apply Nat.ltb_lt in Wr.
      destruct (nth_error (options r) i) as [o |] eqn:N;
        [now exists i, o |].
      apply nth_error_None in N. lia.
    - apply Nat.eqb_eq, length_zero_iff_nil in Wr. contradiction. }
  destruct enumerated as [devices |].
  - pose proof (device_list_facts devices sel) as F. apply G.
    + apply F.
    + apply F.
  - unfold populateAudioDevices.
    destruct (length (options sel) =? 0)%nat eqn:L.
    + apply Nat.eqb_eq, length_zero_iff_nil in L. apply G.
      * unfold well_formed, add in *. rewrite L in *. cbn [options selectedIndex].
        destruct (selectedIndex sel); [discriminate W | reflexivity].
      * unfold add. cbn [options]. now destruct (options sel).
    + apply G; [exact W |]. intros E. now rewrite E in L.
Qed.

Lemma device_list_is_never_empty_witness :
  let sel := mkSelect [mkOption (js "usb") (js "USB microphone")] (Some O) in
  well_formed sel = true
  /\ options (populateAudioDevices (Some []) sel) <> [].
Proof.
  intros sel. assert (W : well_formed sel = true) by reflexivity.
  split; [exact W |].
  exact (proj1 (proj2 (device_list_is_never_empty (Some []) sel W))).
Defined.

Lemma replace_all_app (c : N) (by_text s t : jsstring) :
  replace_all c by_text (s ++ t)
  = replace_all c by_text s ++ replace_all c by_text t.
Proof. apply flat_map_app. Qed.

Lemma escapeHtml_app (s t : jsstring) :
  escapeHtml (s ++ t) = escapeHtml s ++ escapeHtml t.
Proof. unfold escapeHtml. now rewrite !replace_all_app. Qed.

Lemma replace_all_other (c x : N) (by_text : jsstring) :
  (x =? c)%N = false -> replace_all c by_text [x] = [x].
Proof. intros H. unfold replace_all. cbn [flat_map]. now rewrite H. Qed.

Lemma escapeHtml_unit (x : N) : escapeHtml [x] = escape_unit x.
Proof.
  unfold escape_unit.
  destruct (N.eqb_spec x 38) as [-> | H1]; [reflexivity |].
  destruct (N.eqb_spec x 60) as [-> | H2]; [reflexivity |].
  destruct (N.eqb_spec x 62) as [-> | H3]; [reflexivity |].
  destruct (N.eqb_spec x 34) as [-> | H4]; [reflexivity |].
  destruct (N.eqb_spec x 39) as [-> | H5]; [reflexivity |].
  unfold escapeHtml.
  now rewrite !replace_all_other by (apply N.eqb_neq; assumption).
Qed.

(** X19.  The five replacements of [escapeHtml], made one after the other,
    amount to one pass that replaces each of the five characters by its
    entity: the ampersands of the entities written first are not escaped
    again.  The result holds none of the characters [<], [>], the double
    quote and the single quote. *)
Theorem escapeHtml_is_one_pass (s : jsstring) :
  escapeHtml s = flat_map escape_unit s
  /\ forallb
       (fun y => negb ((y =? 60) || (y =? 62) || (y =? 34) || (y =? 39))%N)
       (escapeHtml s) = true.
Proof.
  assert (E : escapeHtml s = flat_map escape_unit s).
  { induction s as [| x rest IH]; [reflexivity |].
    change (x :: rest) with ([x] ++ rest).
    rewrite escapeHtml_app, escapeHtml_unit, IH. reflexivity. }
  split; [exact E |]. rewrite E. clear E.
  induction s as [| x rest IH]; [reflexivity |].
  cbn [flat_map]. rewrite forallb_app, IH, andb_true_r.
  unfold escape_unit.
  destruct (N.eqb_spec x 38) as [-> | _]; [reflexivity |].
  destruct (x =? 60)%N eqn:A; [reflexivity |].
  destruct (x =? 62)%N eqn:B; [reflexivity |].
  destruct (x =? 34)%N eqn:C; [reflexivity |].
  destruct (x =? 39)%N eqn:D; [reflexivity |].
  cbn [forallb]. now rewrite A, B, C, D.
Qed.

End PageHelpers.

(** ** The second class: failed capture and recognised speech *)
Section SecondClass.

Lemma reset_fires (s : app) (start_throws : bool) (l : list (callback * Z)) :
  isRecording s = false -> timers s = l ++ [(reset_status, 3000%Z)] ->
  recordingStatus (GeminiLiveApp.handle s (Timeout reset_status start_throws))
  = js "Ready to stream"
  /\ effects (GeminiLiveApp.handle s (Timeout reset_status start_throws))
     = effects s.
Proof.
  intros R T. cbn [GeminiLiveApp.handle]. rewrite T.
  destruct (take_timer_last reset_status 3000%Z l) as [rest ->].
  unfold GeminiLiveApp.reset. fields. rewrite R. cbn [negb].
  split; reflexivity.
Qed.

Lemma gemini_acquire_rejected (env : environment) (s0 : app) (err : error) :
  selectedSourceType s0 = system -> getDisplayMedia env = inl err ->
  let s' := GeminiLiveApp.acquire env s0 in
  effects s' = effects s0 ++ [GetDisplayMedia; Console "System audio denied"]
  /\ isRecording s' = false
  /\ recordingStatus s' = capture_status err
  /\ timers s' = timers s0 ++ [(reset_status, 3000%Z)]
  /\ stream s' = stream s0 /\ sessionPromise s' = sessionPromise s0
  /\ audioContext s' = audioContext s0.
Proof.
  intros S G s'.
  assert (E : s' = GeminiLiveApp.capture_failed err
                     (emit GetDisplayMedia
                        (set_closure
                           (mkCaptured
                              (ModeResolver.translation_mode
                                 (languageSelect env) (translationSelect env))
                              (ModeResolver.outputLanguageText
                                 (translationOption env)
                                 (translationSelect env))) s0))).
  { unfold s', GeminiLiveApp.acquire. cbv zeta. fields. rewrite S, G.
    reflexivity. }
  rewrite E.
  match goal with
  | |- context [GeminiLiveApp.capture_failed ?e ?x] =>
      destruct (capture_failed_fields e x)
        as (F1 & F2 & F3 & F4 & F5 & F6 & _ & F8 & _)
  end.
  rewrite F1, F2, F3, F4, F5, F6, F8. fields.
  rewrite <- app_assoc. repeat split; reflexivity.
Qed.

(** X20.  When the display capture is refused, [GeminiLiveApp] gives the
    session up before anything is created: the recording flag is down, no
    connection is made, the status line tells a cancelled selection from
    another error by the name of the error, and three seconds later the
    status line goes back to [Ready to stream]. *)
Theorem refused_capture_is_reported (env : environment) (s : app)
    (err : error) (start_throws : bool) :
  api_key env = true ->
  Js.eqb (unifiedSourceSelect env) (js "system") = true ->
  getDisplayMedia env = inl err ->
  let s1 := GeminiLiveApp.startLiveSession env s in
  let s2 := GeminiLiveApp.handle s1 (Timeout reset_status start_throws) in
  effects s1 = effects s ++ [GetDisplayMedia; Console "System audio denied"]
  /\ isRecording s1 = false
  /\ recordingStatus s1 = capture_status err
  /\ stream s1 = stream s /\ sessionPromise s1 = sessionPromise s
  /\ audioContext s1 = audioContext s
  /\ recordingStatus s2 = js "Ready to stream"
  /\ effects s2 = effects s1.
Proof.
  intros K U G. cbv zeta. unfold GeminiLiveApp.startLiveSession.
  rewrite K. cbn [negb].
  destruct (gemini_begin_session env s) as [C W]. rewrite U in W.
  destruct (control_fields _ _ C) as (_ & _ & _ & _ & E).
  destruct (wiring_fields _ _ W) as (S & _ & W3 & W4 & _ & W6 & _).
  destruct (gemini_acquire_rejected env (GeminiLiveApp.begin_session env s)
              err S G) as (P1 & P2 & P3 & P4 & P5 & P6 & P7).
  destruct (reset_fires _ start_throws _ P2 P4) as [R1 R2].
  split; [rewrite P1, E; reflexivity |]. split; [exact P2 |].
  split; [exact P3 |]. split; [rewrite P5; exact W3 |].
  split; [rewrite P6; exact W4 |].
  split; [rewrite P7; exact W6 |].
  split; [exact R1 | exact R2].
Qed.

Lemma gemini_appendTranscriptItem (text speaker : jsstring) (s : app) :
  interim_last s ->
  let s' := GeminiLiveApp.appendTranscriptItem text speaker s in
  interim_last s'
  /\ finalized s' = finalized s ++ [speaker ++ js ": " ++ text]
  /\ effects s' = effects s /\ translatedContent s' = translatedContent s
  /\ selectedSourceType s' = selectedSourceType s /\ closure s' = closure s.
Proof.
  intros (segs & i & t & Hc & Hs & Hr). cbv zeta.
  unfold GeminiLiveApp.appendTranscriptItem. cbv zeta. rewrite Hr.
  unfold interim_last, finalized. fields.
  rewrite Hc, (insertBefore_last _ i t segs Hs). cbn [children].
  split.
  - exists (segs ++ [Segment (speaker ++ js ": " ++ text) false]), i, t.
    split; [reflexivity |]. split; [| exact Hr].
    rewrite forallb_app, Hs. reflexivity.
  - rewrite !segments_app. cbn [segments]. rewrite !app_nil_r.
    repeat split.
Qed.

Lemma gemini_updateInterimText (text : jsstring) (s : app) :
  interim_last s ->
  let s' := GeminiLiveApp.updateInterimText text s in
  interim_last s' /\ finalized s' = finalized s
  /\ interim_slot s' = Some text
  /\ effects s' = effects s /\ translatedContent s' = translatedContent s.
Proof.
  intros (segs & i & t & Hc & Hs & Hr). cbv zeta.
  unfold GeminiLiveApp.updateInterimText. cbv zeta. rewrite Hr.
  unfold interim_last, finalized, interim_slot. fields.
  rewrite Hr, Hc, (set_text_last i t text segs Hs). cbn [children].
  split.
  - exists segs, i, text. now repeat split.
  - rewrite !segments_app. cbn [segments]. split; [reflexivity |].
    split; [| now split].
    clear Hc. induction segs as [| x rest IH]; cbn [List.app interim_text].
    + now rewrite Nat.eqb_refl.
    + cbn [forallb] in Hs. apply andb_prop in Hs as [Hx Hrest].
      destruct x; [exact (IH Hrest) | discriminate].
Qed.

Lemma interim_last_emit (e : effect) (s : app) :
  interim_last s -> interim_last (emit e s).
Proof. apply interim_last_panes. reflexivity. Qed.

Lemma interim_last_set_recognition (b : bool) (s : app) :
  interim_last s -> interim_last (set_recognition b s).
Proof. apply interim_last_panes. reflexivity. Qed.

(** X21.  In [GeminiLiveApp] a result of the recogniser is only written
    down: a final transcript that is not empty becomes one item labelled
    [You: ] at the end of the finalized items, blank or not, the interim
    text is replaced, the raw pane stays tidy, and nothing is sent,
    requested or written to the translated pane, in translation mode
    too. *)
Theorem second_class_only_transcribes (resultIndex : nat)
    (results : list recognition_result) (s : app) :
  recognition s = true -> interim_last s ->
  let final := fst (collect (skipn resultIndex results)) in
  let interim := snd (collect (skipn resultIndex results)) in
  let s' := GeminiLiveApp.handle s (Result resultIndex results) in
  interim_last s'
  /\ finalized s'
     = finalized s ++ (if truthy final then [js "You: " ++ final] else [])
  /\ interim_slot s' = Some interim
  /\ actions s' = actions s
  /\ translatedContent s' = translatedContent s.
Proof.
  intros R I. cbv zeta. cbn [GeminiLiveApp.handle]. rewrite R.
  unfold GeminiLiveApp.onresult. cbv zeta.
  destruct (collect (skipn resultIndex results)) as [final interim].
  cbn [fst snd].
  pose proof (interim_last_emit (Console "WebSpeech Result Received") s I)
    as I0.
  remember (emit (Console "WebSpeech Result Received") s) as s0 eqn:E0.
  assert (A0 : actions s0 = actions s /\ finalized s0 = finalized s
               /\ translatedContent s0 = translatedContent s).
  { subst s0. unfold actions, finalized. fields. rewrite filter_app.
    cbn [filter is_action]. now rewrite app_nil_r. }
  clear E0. destruct A0 as (A0 & F0 & T0).
  assert (S1 : exists s1,
             (if truthy final
              then
                if source_eqb
                     (selectedSourceType
                        (GeminiLiveApp.appendTranscriptItem final (js "You") s0))
                     mic
                   && isTranslationMode
                        (closure
                           (GeminiLiveApp.appendTranscriptItem final
                              (js "You") s0))
                then GeminiLiveApp.handleTranslationAndTTS final
                       (selectedOutputLanguageText
                          (closure
                             (GeminiLiveApp.appendTranscriptItem final
                                (js "You") s0)))
                       (GeminiLiveApp.appendTranscriptItem final (js "You") s0)
                else GeminiLiveApp.appendTranscriptItem final (js "You") s0
              else s0) = s1
             /\ interim_last s1
             /\ finalized s1
                = finalized s
                  ++ (if truthy final then [js "You: " ++ final] else [])
             /\ actions s1 = actions s
             /\ translatedContent s1 = translatedContent s).
  { destruct (truthy final).
    - destruct (gemini_appendTranscriptItem final (js "You") s0 I0)
        as (J & F & E & T & _).
      remember (GeminiLiveApp.appendTranscriptItem final (js "You") s0)
        as sa eqn:Ea. clear Ea.
      assert (Aa : actions sa = actions s)
        by (unfold actions in *; now rewrite E).
      destruct (source_eqb (selectedSourceType sa) mic
                && isTranslationMode (closure sa)).
      + eexists. split; [reflexivity |].
        unfold GeminiLiveApp.handleTranslationAndTTS.
        split; [exact (interim_last_emit _ _ J) |].
        split; [unfold finalized in *; fields; now rewrite F, F0 |].
        split; [unfold actions in *; fields; rewrite filter_app;
                cbn [filter is_action]; now rewrite app_nil_r |].
        fields. congruence.
      + eexists. split; [reflexivity |]. split; [exact J |].
        split; [now rewrite F, F0 |]. split; [exact Aa | congruence].
    - eexists. split; [reflexivity |]. split; [exact I0 |].
      split; [now rewrite app_nil_r |]. split; assumption. }
  destruct S1 as (s1 & -> & I1 & F1 & A1 & T1).
  destruct (gemini_updateInterimText interim s1 I1) as (J & F & L & E & T).
  split; [exact J |]. split; [now rewrite F |]. split; [exact L |].
  split; [unfold actions in *; now rewrite E | congruence].
Qed.

End SecondClass.

Lemma refused_capture_is_reported_witness :
  let env :=
    mkEnvironment true (js "system") (js "default") (js "auto") (js "fr")
      (Some (js "French")) (inl (mkError (js "NotAllowedError") (js "denied")))
      (inr []) true false false in
  let s1 := GeminiLiveApp.startLiveSession env initial in
  getDisplayMedia env = inl (mkError (js "NotAllowedError") (js "denied"))
  /\ recordingStatus s1 = js "Selection cancelled."
  /\ recordingStatus (GeminiLiveApp.handle s1 (Timeout reset_status false))
     = js "Ready to stream".
Proof.
  intros env s1.
  assert (G : getDisplayMedia env
              = inl (mkError (js "NotAllowedError") (js "denied")))
    by reflexivity.
  split; [exact G |].
  destruct (refused_capture_is_reported env initial _ false eq_refl eq_refl G)
    as (_ & _ & P3 & _ & _ & _ & P7 & _).
  split; [exact P3 | exact P7].
Defined.

Lemma second_class_only_transcribes_witness :
  let s := set_recognition true (reset_panes initial) in
  let s' :=
    GeminiLiveApp.handle s
      (Result 0 [mkResult true (js "hello"); mkResult false (js "wor")]) in
  recognition s = true
  /\ finalized s' = finalized s ++ [js "You: hello"]
  /\ interim_slot s' = Some (js "wor")
  /\ actions s' = actions s.
Proof.
  intros s s'.
  assert (R : recognition s = true) by reflexivity.
  assert (I : interim_last s)
    by exact (interim_last_set_recognition true _
                (proj1 (reset_panes_tidy initial))).
  split; [exact R |].
  destruct (second_class_only_transcribes 0
              [mkResult true (js "hello"); mkResult false (js "wor")] s R I)
    as (_ & F & L & A & _).
  split; [exact F |]. split; [exact L | exact A].
Defined.

(** * The page: tasks in any order *)
Section PageBlocks.

Import VoiceNotesApp.

(** The session start of [VoiceNotesApp] is the run of its blocks one after
    the other, with nothing in between. *)
Lemma acquire_blocks (env : environment) (s0 : app) :
  acquire env s0
  = (let src := selectedSourceType s0 in
     let request :=
       match src with
       | system => emit GetDisplayMedia s0
       | mic => emit (GetUserMedia (Page.device_of env)) s0
       end in
     let '(s1, suspended) := Page.media_settled src env request in
     if suspended then Page.output_resumed true src env s1 else s1).
Proof.
  unfold acquire, open_session, Page.media_settled, Page.open_head,
    Page.output_resumed, Page.open_tail, Page.instruction_of,
    Page.captured_of, Page.device_of, language_text.
  cbv zeta. fields.
  destruct (selectedSourceType s0);
    [destruct (getUserMedia env) as [err | tracks]
    | destruct (getDisplayMedia env) as [err | tracks]];
    try reflexivity;
    destruct (output_suspended env); fields; cbn [negb]; try reflexivity;
    split_cases; reflexivity.
Qed.

Lemma startLiveSession_blocks (env : environment) (s : app) :
  startLiveSession env s
  = (let '(s1, suspended) :=
       Page.media_settled (selectedSourceType s) env (Page.start_request env s) in
     if suspended
     then Page.output_resumed true (selectedSourceType s) env s1
     else s1).
Proof.
  unfold startLiveSession. rewrite acquire_blocks. unfold Page.start_request.
  cbv zeta.
  destruct (voice_begin_session s) as [_ W].
  destruct (wiring_fields _ _ W) as (S & _).
  fields_in_all. rewrite S. reflexivity.
Qed.



End PageBlocks.

Section PageFacts.

Import VoiceNotesApp.

Variable atob : jsstring -> option (list Z).













(** C3, as the specification has it, fails for a first segment that is
    blank: [appendRawSegment] drops it, and the finalized sequence holds
    the second segment alone. *)
Lemma blank_first_segment_is_dropped :
  let F1 := js " " in
  let ab := js "ab" in
  let s1 := onresult 0 [mkResult true F1] (reset_panes initial) in
  let s2 := onresult 1 [mkResult true F1; mkResult false ab] s1 in
  let s3 := onresult 1 [mkResult true F1; mkResult true ab] s2 in
  finalized s1 = [] /\ finalized s3 = [ab ++ js " "]
  /\ finalized s3 <> [F1; ab]
  /\ finalized s3 <> [F1 ++ js " "; ab ++ js " "]
  /\ interim_slot s3 = Some [].
Proof.
  cbv zeta. split; [reflexivity |]. split; [reflexivity |].
  split; [discriminate |]. split; [discriminate | reflexivity].
Qed.


End PageFacts.


(** ** Stop, and what arrives late *)
Section PageSessions.

Import VoiceNotesApp.

Variable atob : jsstring -> option (list Z).

Lemma stop_head_step (s : app) : step s (Page.stop_head s).
Proof.
  unfold Page.stop_head. cbv zeta.
  split_cases; rewrite ?stop_tracks_effects; unfold step; fields_in_all;
    (split; [intros; congruence |];
     split; [intros; congruence |];
     split; [intros; congruence |];
     split;
       [intros; first [left; split; congruence | right; split; congruence] |];
     eexists;
     split;
       [rewrite <- ?app_assoc;
        first [reflexivity | symmetry; apply app_nil_r] |];
     split; left;
       rewrite ?filter_app, ?filter_TrackStop by reflexivity; reflexivity).
Qed.















(** ** Start, block by block *)








(** ** The output context *)















End PageSessions.




